(** * InfluxDB3Sink: a shallow embedding of [quixstreams/sinks/core/influxdb3.py]

    The sink converts the records of a checkpoint batch into InfluxDB points
    and sends them to the destination client, one request per chunk.

    Python objects that the code mutates in place (the [dict] held by a record)
    live in a store indexed by object identity; everything the code does to the
    outside world (reading the monotonic clock, calling the client, logging) is
    recorded in the same state, which every operation threads explicitly. *)

From Stdlib Require Import ZArith QArith Qround String Ascii List Lia.
From stdpp Require Import base functions gmap sets list strings.

Local Open Scope string_scope.
Local Open Scope list_scope.
Local Open Scope Z_scope.

(** ** Python values *)

(** The values that occur in record dictionaries, record keys and InfluxDB
    tags.  A float is represented by the rational it denotes (NaN and the
    infinities are left out). *)
Inductive pyval :=
| VNone
| VBool (b : bool)
| VInt (z : Z)
| VFloat (q : Q)
| VStr (s : string)
| VBytes (s : string).

(** [InfluxDBValueMap = dict[str, Union[str, int, float, bool]]]. *)
Abbreviation dict := (gmap string pyval).

(** Truthiness, as used by [if x] and [x and y]. *)
Definition py_truthy (v : pyval) : bool :=
  match v with
  | VNone => false
  | VBool b => b
  | VInt z => negb (z =? 0)
  | VFloat q => negb (Qnum q =? 0)
  | VStr s => negb (String.eqb s "")
  | VBytes s => negb (String.eqb s "")
  end.

(** The number a numeric value denotes; [bool] is a subclass of [int]. *)
Definition py_number (v : pyval) : option Q :=
  match v with
  | VBool b => Some (inject_Z (if b then 1 else 0))
  | VInt z => Some (inject_Z z)
  | VFloat q => Some q
  | _ => None
  end.

Definition Qlt_bool (x y : Q) : bool := negb (Qle_bool y x).

(** ** Exceptions *)

(** The [response] object of an [InfluxDBError]; only [status] is read. *)
Record Response := { status : Z }.

(** [influxdb_client_3.InfluxDBError]: the attributes [write] inspects. *)
Record InfluxDBError := {
  response : option Response;
  retry_after : pyval;
  message : string
}.

Inductive value_error :=
| InvalidTimePrecision (given : string)
| KeysOverlap (overlap : gset string)
| InvalidLiteralForInt (given : string).

Inductive exn :=
| KeyError (k : string)
| TypeError (what : string)
| ValueError (why : value_error)
| AttributeError (what : string)
| EInfluxDBError (exc : InfluxDBError)
(** [SinkBackpressureError(retry_after, topic, partition)] (the
    BackpressureSignal of the design; the class itself is declared in
    [quixstreams/sinks/base]), raised [from] the destination's exception. *)
| SinkBackpressureError (retry_after : Z) (topic : string) (partition : Z)
                        (cause : InfluxDBError)
(** Any other exception of the destination client (network, timeout, ...). *)
| EOther (name : string).

Inductive res (A : Type) :=
| Ret (a : A)
| Raise (e : exn).
Arguments Ret {A} a.
Arguments Raise {A} e.

Global Instance res_ret : MRet res := λ A a, Ret a.
Global Instance res_bind : MBind res := λ A B f r,
  match r with
  | Ret a => f a
  | Raise e => Raise e
  end.

(** ** [int(x)] *)

Definition is_space (c : ascii) : bool :=
  let n := nat_of_ascii c in
  ((9 <=? n) && (n <=? 13) || (n =? 32))%nat.

Definition digit_of (c : ascii) : option Z :=
  let n := nat_of_ascii c in
  if ((48 <=? n) && (n <=? 57))%nat then Some (Z.of_nat n - 48) else None.

Fixpoint lstrip (s : string) : string :=
  match s with
  | String c s' => if is_space c then lstrip s' else s
  | EmptyString => EmptyString
  end.

(** Digits with single underscores between them; [acc] is the value read so
    far and [after_digit] tells whether the previous character was a digit.
    Trailing whitespace is accepted once a digit has been read. *)
Fixpoint all_space (s : string) : bool :=
  match s with
  | EmptyString => true
  | String c s' => is_space c && all_space s'
  end.

Fixpoint parse_digits (s : string) (acc : Z) (after_digit : bool) : option Z :=
  match s with
  | EmptyString => if after_digit then Some acc else None
  | String c s' =>
      match digit_of c with
      | Some d => parse_digits s' (10 * acc + d) true
      | None =>
          if after_digit then
            if Ascii.eqb c "_"%char then
              match s' with
              | String c' _ =>
                  if digit_of c' is Some _ then parse_digits s' acc false else None
              | EmptyString => None
              end
            else if all_space s then Some acc else None
          else None
      end
  end.

Definition parse_int (s : string) : option Z :=
  match lstrip s with
  | String "+" s' => parse_digits s' 0 false
  | String "-" s' => Z.opp <$> parse_digits s' 0 false
  | s' => parse_digits s' 0 false
  end.

(** [int(v)]: integers and booleans convert, floats truncate towards zero,
    strings and bytes are parsed as decimal literals.  The literals are read
    as ASCII: digits and blanks outside ASCII, and the interpreter's limit on
    the length of a literal, are not modelled. *)
Definition py_int (v : pyval) : res Z :=
  match v with
  | VNone => Raise (TypeError "int() argument must be a string or a number")
  | VBool b => Ret (if b then 1 else 0)
  | VInt z => Ret z
  | VFloat q => Ret (Z.quot (Qnum q) (Zpos (Qden q)))
  | VStr s | VBytes s =>
      match parse_int s with
      | Some z => Ret z
      | None => Raise (ValueError (InvalidLiteralForInt s))
      end
  end.

(** Comparison of numbers, as [<] behaves in [min] and [max] below when one
    side is an [int]: a value that is not a number raises [TypeError]. *)
Definition num_lt (a b : pyval) : res bool :=
  match py_number a, py_number b with
  | Some x, Some y => Ret (Qlt_bool x y)
  | _, _ => Raise (TypeError "'<' not supported between these instances")
  end.

(** [min(a, b)] and [max(a, b)]: the first argument is kept unless the second
    is strictly smaller (resp. greater). *)
Definition py_min (a b : pyval) : res pyval :=
  match num_lt b a with
  | Ret lt => Ret (if lt then b else a)
  | Raise e => Raise e
  end.

Definition py_max (a b : pyval) : res pyval :=
  match num_lt a b with
  | Ret lt => Ret (if lt then b else a)
  | Raise e => Raise e
  end.

(** [sys.maxsize] on a 64-bit build. *)
Definition sys_maxsize : Z := 2 ^ 63 - 1.

(** [round(x, 2)] on the rational model: to the nearest hundredth, ties to
    the even one.  The readings of the clock are rationals here, so the
    difference that is rounded is exact where the code's is a float's. *)
Definition round_half_even (q : Q) : Z :=
  let f := Qfloor q in
  let twice := Qfloor (q * 2) - 2 * f in
  let exact_half := Qeq_bool (q * 2) (inject_Z (2 * f + 1)) in
  if exact_half then (if Z.even f then f else f + 1)
  else f + twice.

Definition round2 (q : Q) : Q := Qmake (round_half_even (q * 100)) 100.

(** ** Records, batches and points *)

(** Identity of a Python [dict] object. *)
Definition loc : Type := nat.
Bind Scope nat_scope with loc.

Global Instance loc_eq_dec : EqDecision loc := Nat.eq_dec.

(** Modelled from the spec: [SinkItem] is declared in [quixstreams/sinks/base],
    which is not among the sources at hand; it is the IncomingRecord of the
    design (value, key, timestamp, headers, topic, partition, offset).
    [value] is a reference to the record's dictionary; the headers play no
    part in [write] and are left out. *)
Record SinkItem := {
  value : loc;
  key : pyval;
  timestamp : Z;
  offset : Z
}.

(** Modelled from the spec: [SinkBatch], from the same absent module: an
    ordered sequence of records with the batch's topic and partition. *)
Record SinkBatch := {
  topic : string;
  partition : Z;
  items : list SinkItem
}.

(** Modelled from the spec: [SinkBatch.iter_chunks] lives in
    [quixstreams/sinks/base], which is not part of the sources at hand.  The
    batch is split into consecutive chunks of at most [n] records, the last
    one possibly smaller; an empty batch has no chunk.  The spec gives no
    meaning to [n < 1]: what is stated below about the bounds of the chunks
    assumes [0 < n]. *)
Fixpoint chunks_of {A : Type} (fuel n : nat) (l : list A) : list (list A) :=
  match fuel with
  | O => []
  | S fuel' =>
      match l with
      | [] => []
      | _ => take n l :: chunks_of fuel' n (drop n l)
      end
  end.

(** Modelled from the spec: [batch.iter_chunks(n)], by the function above. *)
Definition iter_chunks (batch : SinkBatch) (n : Z) : list (list SinkItem) :=
  chunks_of (length (items batch)) (Z.to_nat n) (items batch).

(** The [fields] entry of a point is either the dictionary built by the
    comprehension or the record's own dictionary object. *)
Inductive fields_obj :=
| FieldsNew (d : dict)
| FieldsOfValue (l : loc).

(** The dictionary [{"measurement": .., "tags": .., "fields": .., "time": ..}];
    [F] is how the fields are held. *)
Record Point (F : Type) := {
  measurement : string;
  tags : dict;
  fields : F;
  time : pyval
}.
Arguments measurement {F} _.
Arguments tags {F} _.
Arguments fields {F} _.
Arguments time {F} _.

Inductive WritePrecision := MS | NS | US | S_.

(** ** The destination client and the outside world *)

Inductive WriteOutcome :=
| WriteOk
| WriteInfluxDBError (exc : InfluxDBError)
| WriteOtherError (name : string).

(** [InfluxDBClient3], as the sink sees it: the outcome of a write request
    given how many requests were made before, the points and the precision;
    and the exception, if any, that a query raises. *)
Record Client := {
  write_outcome : nat → list (Point dict) → WritePrecision → WriteOutcome;
  query_outcome : string → option exn
}.

Record ClientCall := {
  call_record : list (Point dict);
  call_write_precision : WritePrecision;
  call_outcome : WriteOutcome
}.

(** The line [logger.info("Sent data to InfluxDB; ...")]. *)
Record LogInfo := {
  total_records : nat;
  min_timestamp : pyval;
  max_timestamp : pyval;
  time_elapsed : Q
}.

Record World := {
  heap : loc → dict;           (** contents of the dictionary objects *)
  monotonic : nat → Q;         (** the [k]-th reading of [time.monotonic()] *)
  clock_reads : nat;           (** readings taken so far *)
  client_calls : list ClientCall;  (** requests made so far, oldest first *)
  log : list LogInfo           (** lines logged so far, oldest first *)
}.

Definition set_heap (h : loc → dict) (w : World) : World :=
  {| heap := h; monotonic := monotonic w; clock_reads := clock_reads w;
     client_calls := client_calls w; log := log w |}.

(** ** Computations: state and exceptions *)

Definition M (A : Type) : Type := World → res A * World.

Global Instance M_ret : MRet M := λ A a w, (Ret a, w).
Global Instance M_bind : MBind M := λ A B f m w,
  match m w with
  | (Ret a, w') => f a w'
  | (Raise e, w') => (Raise e, w')
  end.

Definition raise {A : Type} (e : exn) : M A := λ w, (Raise e, w).

Definition lift {A : Type} (r : res A) : M A := λ w, (r, w).

(** [for x in l: acc = body(x, acc)]. *)
Fixpoint for_in {A S : Type} (l : list A) (body : A → S → M S) (acc : S) : M S :=
  match l with
  | [] => mret acc
  | x :: l' => acc' ← body x acc; for_in l' body acc'
  end.

(** [try: m  except influxdb_client_3.InfluxDBError as exc: handler(exc)]. *)
Definition try_except_InfluxDBError {A : Type}
    (m : M A) (handler : InfluxDBError → M A) : M A := λ w,
  match m w with
  | (Raise (EInfluxDBError exc), w') => handler exc w'
  | r => r
  end.

(** [d = heap[l]]: the current contents of a dictionary object. *)
Definition deref (l : loc) : M dict := λ w, (Ret (heap w l), w).

(** [value.pop(k)]. *)
Definition dict_pop (l : loc) (k : string) : M pyval := λ w,
  match heap w l !! k with
  | Some v => (Ret v, set_heap (<[l := delete k (heap w l)]> (heap w)) w)
  | None => (Raise (KeyError k), w)
  end.

(** [value[k]]. *)
Definition dict_getitem (l : loc) (k : string) : M pyval := λ w,
  match heap w l !! k with
  | Some v => (Ret v, w)
  | None => (Raise (KeyError k), w)
  end.

(** [time.monotonic()]. *)
Definition time_monotonic : M Q := λ w,
  (Ret (monotonic w (clock_reads w)),
   {| heap := heap w; monotonic := monotonic w; clock_reads := S (clock_reads w);
      client_calls := client_calls w; log := log w |}).

(** [logger.info(...)]. *)
Definition logger_info (line : LogInfo) : M unit := λ w,
  (Ret tt,
   {| heap := heap w; monotonic := monotonic w; clock_reads := clock_reads w;
      client_calls := client_calls w; log := log w ++ [line] |}).

(** What the client reads from a point when the request is made. *)
Definition snapshot (h : loc → dict) (p : Point fields_obj) : Point dict :=
  {| measurement := measurement p;
     tags := tags p;
     fields := match fields p with FieldsNew d => d | FieldsOfValue l => h l end;
     time := time p |}.

(** [self._client.write(record=records, write_precision=precision)]. *)
Definition client_write (client : option Client)
    (records : list (Point fields_obj)) (precision : WritePrecision) : M unit := λ w,
  match client with
  | None => (Raise (AttributeError "'NoneType' object has no attribute 'write'"), w)
  | Some c =>
      let sent := snapshot (heap w) <$> records in
      let outcome := write_outcome c (length (client_calls w)) sent precision in
      let w' := {| heap := heap w; monotonic := monotonic w;
                   clock_reads := clock_reads w;
                   client_calls := client_calls w ++
                     [{| call_record := sent; call_write_precision := precision;
                         call_outcome := outcome |}];
                   log := log w |} in
      match outcome with
      | WriteOk => (Ret tt, w')
      | WriteInfluxDBError exc => (Raise (EInfluxDBError exc), w')
      | WriteOtherError name => (Raise (EOther name), w')
      end
  end.

(** ** The sink *)

(** [MeasurementSetter], [FieldsSetter], [TagsSetter]: a constant or a
    function of the record value. *)
Inductive setter (T : Type) :=
| Static (c : T)
| Callable (f : dict → T).
Arguments Static {T} c.
Arguments Callable {T} f.

Definition callable {T : Type} (s : setter T) : bool :=
  match s with
  | Static _ => false
  | Callable _ => true
  end.

(** The arguments of [InfluxDB3Sink.__init__] (the two connection callbacks
    are handed to the base class and play no part here). *)
Module Init.
Record args := {
  token : string;
  host : string;
  organization_id : string;
  database : string;
  measurement : setter string;
  fields_keys : setter (list string);
  tags_keys : setter (list string);
  time_key : option string;
  time_precision : string;
  allow_missing_fields : bool;
  include_metadata_tags : bool;
  batch_size : Z;
  enable_gzip : bool;
  request_timeout_ms : Z;
  debug : bool
}.
End Init.

Record ClientArgs := {
  arg_token : string;
  arg_host : string;
  arg_org : string;
  arg_database : string;
  arg_debug : bool;
  arg_enable_gzip : bool;
  arg_timeout : Z
}.

Record InfluxDB3Sink := {
  _client_args : ClientArgs;
  _client : option Client;
  _measurement : dict → string;
  _fields_keys : dict → list string;
  _tags_keys : dict → list string;
  _include_metadata_tags : bool;
  _time_key : option string;
  _write_precision : WritePrecision;
  _batch_size : Z;
  _allow_missing_fields : bool
}.

(** [get_args(TimePrecision)]. *)
Definition TimePrecision_args : list string := ["ms"; "ns"; "us"; "s"].

Definition _TIME_PRECISIONS (k : string) : option WritePrecision :=
  if String.eqb k "ms" then Some MS
  else if String.eqb k "ns" then Some NS
  else if String.eqb k "us" then Some US
  else if String.eqb k "s" then Some S_
  else None.

Definition _measurement_callable (s : setter string) : dict → string :=
  match s with
  | Callable f => f
  | Static c => λ value, c
  end.

Definition _fields_callable (s : setter (list string)) : dict → list string :=
  match s with
  | Callable f => f
  | Static c => λ value, c
  end.

Definition _tags_callable (s : setter (list string)) : dict → list string :=
  match s with
  | Callable f => f
  | Static c => λ value, c
  end.

(** [set(fields_keys) & set(tags_keys)], computed when neither setter is
    callable. *)
Definition fields_tags_keys_overlap (a : Init.args) : option (gset string) :=
  match Init.fields_keys a, Init.tags_keys a with
  | Static fk, Static tk => Some (list_to_set fk ∩ list_to_set tk)
  | _, _ => None
  end.

Definition __init__ (a : Init.args) : res InfluxDB3Sink :=
  (if negb (bool_decide (Init.time_precision a ∈ TimePrecision_args)) then
     Raise (ValueError (InvalidTimePrecision (Init.time_precision a)))
   else Ret tt);;
  (if negb (callable (Init.fields_keys a)) && negb (callable (Init.tags_keys a)) then
     match fields_tags_keys_overlap a with
     | Some overlap =>
         if negb (bool_decide (overlap = ∅)) then
           Raise (ValueError (KeysOverlap overlap))
         else Ret tt
     | None => Ret tt
     end
   else Ret tt);;
  precision ← match _TIME_PRECISIONS (Init.time_precision a) with
              | Some p => Ret p
              | None => Raise (KeyError (Init.time_precision a))
              end;
  Ret {| _client_args :=
           {| arg_token := Init.token a;
              arg_host := Init.host a;
              arg_org := Init.organization_id a;
              arg_database := Init.database a;
              arg_debug := Init.debug a;
              arg_enable_gzip := Init.enable_gzip a;
              arg_timeout := Init.request_timeout_ms a |};
         _client := None;
         _measurement := _measurement_callable (Init.measurement a);
         _fields_keys := _fields_callable (Init.fields_keys a);
         _tags_keys := _tags_callable (Init.tags_keys a);
         _include_metadata_tags := Init.include_metadata_tags a;
         _time_key := Init.time_key a;
         _write_precision := precision;
         _batch_size := Init.batch_size a;
         _allow_missing_fields := Init.allow_missing_fields a |}.

(** [str(e)] of an exception raised by a query. *)
Definition exn_str (e : exn) : string :=
  match e with
  | EOther text => text
  | EInfluxDBError exc => message exc
  | _ => ""
  end.

(** [setup]: creates the client ([InfluxDBClient3] is the constructor handed
    in), stores it, and probes it with an empty query.  The result is the
    outcome together with the sink as the call leaves it. *)
Definition setup (InfluxDBClient3 : ClientArgs → Client) (self : InfluxDB3Sink)
  : res unit * InfluxDB3Sink :=
  let client := InfluxDBClient3 (_client_args self) in
  let self :=
    {| _client_args := _client_args self;
       _client := Some client;
       _measurement := _measurement self;
       _fields_keys := _fields_keys self;
       _tags_keys := _tags_keys self;
       _include_metadata_tags := _include_metadata_tags self;
       _time_key := _time_key self;
       _write_precision := _write_precision self;
       _batch_size := _batch_size self;
       _allow_missing_fields := _allow_missing_fields self |} in
  match query_outcome client "" with
  | None => (Ret tt, self)
  | Some e =>
      if String.index 0 "No SQL statements were provided in the query string"
           (exn_str e) is Some _
      then (Ret tt, self)
      else (Raise e, self)
  end.

(** [k in value]. *)
Definition dict_contains (l : loc) (k : string) : M bool := λ w,
  (Ret (bool_decide (is_Some (heap w l !! k))), w).

(** The reserved tags added when [include_metadata_tags] is set. *)
Definition metadata_tags (batch : SinkBatch) (item : SinkItem) (tags : dict) : dict :=
  <["__partition" := VInt (partition batch)]>
    (<["__topic" := VStr (topic batch)]>
       (<["__key" := key item]> tags)).

(** The body of [for tag_key in _tags_keys]. *)
Definition pop_tag (value : loc) (tag_key : string) (tags : dict) : M dict :=
  tag ← dict_pop value tag_key;
  mret (<[tag_key := tag]> tags).

(** One step of the comprehension
    [{field_key: value[field_key] for field_key in _fields_keys if ...}]. *)
Definition select_field (allow_missing_fields : bool) (value : loc)
    (tags_keys_ : list string) (field_key : string) (fields : dict) : M dict :=
  present ← dict_contains value field_key;
  if (present || negb allow_missing_fields)
     && negb (bool_decide (field_key ∈ tags_keys_))
  then x ← dict_getitem value field_key;
       mret (<[field_key := x]> fields)
  else mret fields.

(** The body of [for item in write_batch], down to the point it builds. *)
Definition write_record (self : InfluxDB3Sink) (batch : SinkBatch)
    (item : SinkItem) : M (Point fields_obj) :=
  let value := value item in
  v ← deref value;
  (* Evaluate these before we alter the value *)
  let measurement_ := _measurement self v in
  let tags_keys_ := _tags_keys self v in
  let fields_keys_ := _fields_keys self v in
  tags ← for_in tags_keys_ (pop_tag value) (∅ : dict);
  let tags :=
    if _include_metadata_tags self then metadata_tags batch item tags else tags in
  fields ←
    (if negb (bool_decide (fields_keys_ = [])) then
       d ← for_in fields_keys_
             (select_field (_allow_missing_fields self) value tags_keys_)
             (∅ : dict);
       mret (FieldsNew d)
     else mret (FieldsOfValue value));
  ts ← match _time_key self with
       | Some time_key => dict_getitem value time_key
       | None => mret (VInt (timestamp item))
       end;
  mret {| measurement := measurement_; tags := tags; fields := fields; time := ts |}.

(** [exc.response and exc.response.status == 429 and exc.retry_after]. *)
Definition write_limit_exceeded (exc : InfluxDBError) : bool :=
  match response exc with
  | Some r => (status r =? 429) && py_truthy (retry_after exc)
  | None => false
  end.

(** The body of [for item in write_batch]: the point is appended to
    [records] and the running minimum and maximum timestamps are updated. *)
Definition add_record (self : InfluxDB3Sink) (batch : SinkBatch) (item : SinkItem)
    (acc : list (Point fields_obj) * pyval * pyval)
  : M (list (Point fields_obj) * pyval * pyval) :=
  let '(records, min_timestamp, max_timestamp) := acc in
  record ← write_record self batch item;
  let records := records ++ [record] in
  min_timestamp ← lift (py_min (time record) min_timestamp);
  max_timestamp ← lift (py_max (time record) max_timestamp);
  mret (records, min_timestamp, max_timestamp).

(** The inner loop of [write]: the points of one chunk with the running
    minimum and maximum of their timestamps. *)
Definition chunk_records (self : InfluxDB3Sink) (batch : SinkBatch)
    (write_batch : list SinkItem)
  : M (list (Point fields_obj) * pyval * pyval) :=
  for_in write_batch (add_record self batch) ([], VInt sys_maxsize, VInt (-1)).

(** The [except influxdb_client_3.InfluxDBError as exc] clause. *)
Definition on_InfluxDBError (batch : SinkBatch) (exc : InfluxDBError) : M unit :=
  if write_limit_exceeded exc then
    (* The write limit is exceeded, raise a SinkBackpressureError
       to pause the partition for a certain period of time. *)
    retry ← lift (py_int (retry_after exc));
    raise (SinkBackpressureError retry (topic batch) (partition batch) exc)
  else raise (EInfluxDBError exc).

(** The body of [for write_batch in batch.iter_chunks(n=self._batch_size)]. *)
Definition write_chunk (self : InfluxDB3Sink) (batch : SinkBatch)
    (write_batch : list SinkItem) : M unit :=
  '(records, min_timestamp, max_timestamp) ← chunk_records self batch write_batch;
  try_except_InfluxDBError
    (_start ← time_monotonic;
     client_write (_client self) records (_write_precision self);;
     now ← time_monotonic;
     let elapsed := round2 (now - _start) in
     logger_info {| total_records := length records;
                    min_timestamp := min_timestamp;
                    max_timestamp := max_timestamp;
                    time_elapsed := elapsed |})
    (on_InfluxDBError batch).

Definition write (self : InfluxDB3Sink) (batch : SinkBatch) : M unit :=
  for_in (iter_chunks batch (_batch_size self))
    (λ write_batch _, write_chunk self batch write_batch) tt.

(** ** Reference notions used in the statements *)

(** A dictionary after the keys [ks] have been popped from it. *)
Definition remove_keys (ks : list string) (d : dict) : dict :=
  foldr delete d ks.

(** The part of a dictionary under the keys that satisfy [P]. *)
Definition restrict (P : string → Prop) `{!∀ k, Decision (P k)} (d : dict) : dict :=
  filter (λ kv : string * pyval, P kv.1) d.

(** Everything of the world but the dictionary objects. *)
Definition same_outside (w w' : World) : Prop :=
  monotonic w' = monotonic w ∧ clock_reads w' = clock_reads w ∧
  client_calls w' = client_calls w ∧ log w' = log w.

(** The requests made between two states of the world. *)
Definition new_calls (w w' : World) : list ClientCall :=
  drop (length (client_calls w)) (client_calls w').

Definition new_log (w w' : World) : list LogInfo :=
  drop (length (log w)) (log w').

(** A point sent to the client comes from a record: it is what the client
    reads of the point that the record's turn built. *)
Definition emitted (self : InfluxDB3Sink) (batch : SinkBatch)
    (item : SinkItem) (p : Point dict) : Prop :=
  ∃ w w' pt h, write_record self batch item w = (Ret pt, w') ∧ p = snapshot h pt.

(** Exceptions that arise before a request is made. *)
Definition local_error (e : exn) : Prop :=
  (∃ k, e = KeyError k) ∨ (∃ s, e = TypeError s) ∨ (∃ s, e = AttributeError s).

(** The errors of [__init__]. *)
Definition configuration_error (e : exn) : bool :=
  match e with
  | ValueError (KeysOverlap _) | ValueError (InvalidTimePrecision _) => true
  | _ => false
  end.

(** A successful request for a chunk: its points come from the chunk's
    records, one for one and in order. *)
Definition chunk_sent (self : InfluxDB3Sink) (batch : SinkBatch)
    (c : list SinkItem) (call : ClientCall) : Prop :=
  Forall2 (emitted self batch) c (call_record call) ∧
  call_write_precision call = _write_precision self ∧
  call_outcome call = WriteOk.

(** The log line of the [i]-th chunk of a write that starts in [w]: its size
    and the time between the chunk's own two clock readings. *)
Definition chunk_logged (w : World) (i : nat) (c : list SinkItem)
    (line : LogInfo) : Prop :=
  total_records line = length c ∧
  time_elapsed line =
    round2 (monotonic w (clock_reads w + 2 * i + 1)%nat
            - monotonic w (clock_reads w + 2 * i)%nat).

(** The point of a record as the design describes it, from the value [v] the
    record arrives with: measurement, tag keys and field keys are derived
    from [v]; the tags are the entries of [v] under the tag keys, with the
    reserved tags on top when metadata is included; the fields are the
    selected entries that are not tags, or everything but the tags when no
    field key is given; the time is the entry under the time key of what
    remains after the tags are taken out, or else the record's timestamp. *)
Definition output_point (self : InfluxDB3Sink) (batch : SinkBatch)
    (item : SinkItem) (v : dict) : Point dict :=
  let tks := _tags_keys self v in
  let fks := _fields_keys self v in
  let user_tags := restrict (.∈ tks) v in
  {| measurement := _measurement self v;
     tags := if _include_metadata_tags self
             then metadata_tags batch item user_tags else user_tags;
     fields := if decide (fks = []) then remove_keys tks v
               else restrict (λ k, k ∈ fks ∧ k ∉ tks) v;
     time := match _time_key self with
             | Some time_key => default VNone (remove_keys tks v !! time_key)
             | None => VInt (timestamp item)
             end |}.

(** ** Sample configurations, records and worlds *)

Module Sample.
(** A sink as [__init__] and [setup] leave it. *)
Definition sink (measurement_ : setter string)
    (fields_keys_ tags_keys_ : setter (list string))
    (time_key_ : option string) (allow_missing_fields_ : bool)
    (include_metadata_tags_ : bool) (batch_size_ : Z)
    (client : option Client) : InfluxDB3Sink :=
  {| _client_args :=
       {| arg_token := "token"; arg_host := "https://influx.example";
          arg_org := "org"; arg_database := "db"; arg_debug := false;
          arg_enable_gzip := true; arg_timeout := 10000 |};
     _client := client;
     _measurement := _measurement_callable measurement_;
     _fields_keys := _fields_callable fields_keys_;
     _tags_keys := _tags_callable tags_keys_;
     _include_metadata_tags := include_metadata_tags_;
     _time_key := time_key_;
     _write_precision := MS;
     _batch_size := batch_size_;
     _allow_missing_fields := allow_missing_fields_ |}.

Definition args (fields_keys_ tags_keys_ : setter (list string))
    (time_precision_ : string) : Init.args :=
  {| Init.token := "token"; Init.host := "https://influx.example";
     Init.organization_id := "org"; Init.database := "db";
     Init.measurement := Static "cpu";
     Init.fields_keys := fields_keys_; Init.tags_keys := tags_keys_;
     Init.time_key := None; Init.time_precision := time_precision_;
     Init.allow_missing_fields := false;
     Init.include_metadata_tags := false;
     Init.batch_size := 1000; Init.enable_gzip := true;
     Init.request_timeout_ms := 10000; Init.debug := false |}.

(** A destination that accepts every request. *)
Definition accepting : Client :=
  {| write_outcome := λ _ _ _, WriteOk; query_outcome := λ _, None |}.

(** HTTP 429 with [Retry-After: 30]. *)
Definition too_many_requests : InfluxDBError :=
  {| response := Some {| status := 429 |};
     retry_after := VStr "30";
     message := "too many requests" |}.

(** HTTP 429 whose [Retry-After] is a date. *)
Definition retry_at_date : InfluxDBError :=
  {| response := Some {| status := 429 |};
     retry_after := VStr "Wed, 21 Oct 2015 07:28:00 GMT";
     message := "too many requests" |}.

Definition internal_error : InfluxDBError :=
  {| response := Some {| status := 500 |};
     retry_after := VNone;
     message := "internal error" |}.

(** Destinations that refuse every request. *)
Definition throttling : Client :=
  {| write_outcome := λ _ _ _, WriteInfluxDBError too_many_requests;
     query_outcome := λ _, None |}.

Definition throttling_until_date : Client :=
  {| write_outcome := λ _ _ _, WriteInfluxDBError retry_at_date;
     query_outcome := λ _, None |}.

Definition failing : Client :=
  {| write_outcome := λ _ _ _, WriteInfluxDBError internal_error;
     query_outcome := λ _, None |}.

(** Every dictionary object holds [{"host": "h1", "usage": 7, "__key": "mine"}]. *)
Definition record_value : dict :=
  {[ "host" := VStr "h1"; "usage" := VInt 7; "__key" := VStr "mine" ]}.

Definition world : World :=
  {| heap := λ _, record_value;
     monotonic := λ k, inject_Z (Z.of_nat k);
     clock_reads := 0;
     client_calls := [];
     log := [] |}.

Definition item (l : loc) : SinkItem :=
  {| value := l; key := VBytes "k"; timestamp := 1700000000000 + Z.of_nat l;
     offset := Z.of_nat l |}.

Definition batch (n : nat) : SinkBatch :=
  {| topic := "t"; partition := 2; items := item <$> seq 0 n |}.

(** A dynamic field selection that names every key of the record. *)
Definition all_keys : setter (list string) :=
  Callable (λ v, ["host"; "usage"]).
End Sample.

Module Scenario.
Import Sample.

(** Default mapping: no field keys, no tag keys. *)
Definition plain (client : Client) : InfluxDB3Sink :=
  sink (Static "cpu") (Static []) (Static []) None false false 1000 (Some client).

(** ["host"] is a tag; the fields are what remains. *)
Definition tagged : InfluxDB3Sink :=
  sink (Static "cpu") (Static []) (Static ["host"]) None false false 1000
       (Some accepting).

(** ["host"] is a tag and the dynamic field selection names it too. *)
Definition overlapping : InfluxDB3Sink :=
  sink (Static "cpu") all_keys (Static ["host"]) None false false 1000
       (Some accepting).

(** The field ["temp"] is not in the records. *)
Definition missing_field (allow_missing_fields_ : bool) : InfluxDB3Sink :=
  sink (Static "cpu") (Static ["usage"; "temp"]) (Static ["host"]) None
       allow_missing_fields_ false 1000 (Some accepting).


(** The user asks for the tag ["__key"] and for the metadata tags. *)
Definition reserved : InfluxDB3Sink :=
  sink (Static "cpu") (Static ["usage"]) (Static ["__key"]) None false true
       1000 (Some accepting).
End Scenario.

(** ** Further sample configurations *)

Module Coverage.
Import Sample.

(** Two tags are asked for; the records have no ["zone"]. *)
Definition two_tags : InfluxDB3Sink :=
  sink (Static "cpu") (Static []) (Static ["host"; "zone"]) None false false
       1000 (Some accepting).

(** The time is read from the entry ["usage"]. *)
Definition timed : InfluxDB3Sink :=
  sink (Static "cpu") (Static []) (Static ["host"]) (Some "usage") false false
       1000 (Some accepting).

(** Metadata tags and nothing else. *)
Definition with_metadata : InfluxDB3Sink :=
  sink (Static "cpu") (Static []) (Static []) None false true 1000
       (Some accepting).

(** A selection of two fields, one of them also a tag. *)
Definition selecting : InfluxDB3Sink :=
  sink (Static "cpu") (Static ["host"; "usage"]) (Callable (λ v, ["host"])) None
       false false 1000 (Some accepting).

(** A destination whose empty query is refused the expected way. *)
Definition empty_query_refused : Client :=
  {| write_outcome := λ _ _ _, WriteOk;
     query_outcome := λ _,
       Some (EOther "Error: No SQL statements were provided in the query string") |}.

(** A destination that rejects the credentials. *)
Definition unauthorized : Client :=
  {| write_outcome := λ _ _ _, WriteOk;
     query_outcome := λ _, Some (EOther "unauthorized access") |}.
End Coverage.

(** * Sanity checks of the model *)

Example py_int_seconds : py_int (VStr "30") = Ret 30.
Proof. reflexivity. Qed.

Example py_int_underscores : py_int (VStr " -1_000 ") = Ret (-1000).
Proof. reflexivity. Qed.

Example py_int_http_date :
  py_int (VStr "Wed, 21 Oct 2015 07:28:00 GMT")
    = Raise (ValueError (InvalidLiteralForInt "Wed, 21 Oct 2015 07:28:00 GMT")).
Proof. reflexivity. Qed.

Example py_min_keeps_first : py_min (VBool true) (VInt 1) = Ret (VBool true).
Proof. reflexivity. Qed.

Example py_min_of_text : ∃ e, py_min (VStr "now") (VInt sys_maxsize) = Raise e.
Proof. by eexists. Qed.

Example round2_ties_to_even : round2 (1 # 8) = (12 # 100)%Q.
Proof. reflexivity. Qed.

Example iter_chunks_five_by_two :
  length <$> iter_chunks (Sample.batch 5) 2 = [2; 2; 1]%nat.
Proof. reflexivity. Qed.

Example init_default_precision :
  match __init__ (Sample.args (Static []) (Static []) "ms") with
  | Ret sink => _write_precision sink = MS ∧ _client sink = None
  | Raise _ => False
  end.
Proof. by split. Qed.

Example setup_stores_client :
  _client (setup (λ _, Sample.accepting) (Scenario.plain Sample.failing)).2
    = Some Sample.accepting.
Proof. reflexivity. Qed.

(** * Properties *)

(** ** Reasoning about computations *)

Lemma bind_run {A B : Type} (m : M A) (f : A → M B) (w : World) :
  (m ≫= f) w = match m w with
               | (Ret a, w') => f a w'
               | (Raise e, w') => (Raise e, w')
               end.
Proof. reflexivity. Qed.

Lemma ret_run {A : Type} (a : A) (w : World) : (mret a : M A) w = (Ret a, w).
Proof. reflexivity. Qed.

Lemma for_in_cons {A S : Type} (x : A) (l : list A) (body : A → S → M S)
    (acc : S) (w : World) :
  for_in (x :: l) body acc w =
    match body x acc w with
    | (Ret acc', w') => for_in l body acc' w'
    | (Raise e, w') => (Raise e, w')
    end.
Proof. reflexivity. Qed.

(** ** Dictionaries *)

Lemma lookup_remove_keys (ks : list string) (d : dict) (k : string) :
  remove_keys ks d !! k = if decide (k ∈ ks) then None else d !! k.
Proof.
  induction ks as [|k' ks IH]; cbn [remove_keys foldr].
  - case_decide as H; [by apply elem_of_nil in H | done].
  - fold (remove_keys ks d).
    destruct (decide (k' = k)) as [->|Hne].
    + rewrite lookup_delete_eq. destruct (decide (k ∈ k :: ks)) as [H|H]; [done|].
      exfalso. apply H. by left.
    + rewrite lookup_delete_ne by done. rewrite IH.
      destruct (decide (k ∈ ks)) as [Hin|Hin].
      * rewrite decide_True; [done | by right].
      * rewrite decide_False; [done|].
        intros [?|?]%elem_of_cons; done.
Qed.

Lemma remove_keys_subseteq (ks : list string) (d : dict) : remove_keys ks d ⊆ d.
Proof.
  apply map_subseteq_spec. intros k v. rewrite lookup_remove_keys.
  by case_decide.
Qed.

(** ** The tag loop *)

Lemma set_heap_outside (h : loc → dict) (w : World) : same_outside w (set_heap h w).
Proof. done. Qed.

Lemma same_outside_refl (w : World) : same_outside w w.
Proof. done. Qed.

Lemma same_outside_trans (w1 w2 w3 : World) :
  same_outside w1 w2 → same_outside w2 w3 → same_outside w1 w3.
Proof. intros (?&?&?&?) (?&?&?&?). repeat split; congruence. Qed.

Lemma pop_tag_run (l : loc) (k : string) (tags : dict) (w : World) :
  pop_tag l k tags w =
    match heap w l !! k with
    | Some v => (Ret (<[k := v]> tags),
                 set_heap (<[l := delete k (heap w l)]> (heap w)) w)
    | None => (Raise (KeyError k), w)
    end.
Proof.
  unfold pop_tag. rewrite bind_run. unfold dict_pop.
  by destruct (heap w l !! k).
Qed.

Lemma pop_loop (l : loc) (keys : list string) :
  ∀ (tags0 : dict) (w : World) r w',
    for_in keys (pop_tag l) tags0 w = (r, w') →
    same_outside w w' ∧
    (∀ l', l' ≠ l → heap w' l' = heap w l') ∧
    heap w' l ⊆ heap w l ∧
    match r with
    | Ret tags =>
        NoDup keys ∧ (∀ k, k ∈ keys → is_Some (heap w l !! k)) ∧
        heap w' l = remove_keys keys (heap w l) ∧
        (∀ k, tags !! k = if decide (k ∈ keys) then heap w l !! k else tags0 !! k)
    | Raise e =>
        (∃ k, e = KeyError k ∧ k ∈ keys) ∧
        ¬ (NoDup keys ∧ ∀ k, k ∈ keys → is_Some (heap w l !! k))
    end.
Proof.
  induction keys as [|k keys IH]; intros tags0 w r w' Hrun.
  - cbn in Hrun. injection Hrun as <- <-.
    split_and!; try done.
    + constructor.
    + intros k Hk. by apply elem_of_nil in Hk.
  - rewrite for_in_cons, pop_tag_run in Hrun.
    destruct (heap w l !! k) as [v|] eqn:Ek.
    + apply IH in Hrun as (Hout & Hother & Hsub & Hr). clear IH.
      cbn [heap set_heap] in *.
      rewrite fn_lookup_insert in Hsub, Hr.
      split_and!.
      * eapply same_outside_trans; [apply set_heap_outside | done].
      * intros l' Hl'. rewrite Hother by done. by rewrite fn_lookup_insert_ne.
      * etrans; [done | apply delete_subseteq].
      * destruct r as [tags|e].
        -- destruct Hr as (Hnd & Hall & Hheap & Htags). split_and!.
           ++ constructor; [|done]. intros Hin.
              destruct (Hall k Hin) as [? Hx]. by rewrite lookup_delete_eq in Hx.
           ++ intros k' [->|Hin]%elem_of_cons; [by eexists|].
              destruct (Hall k' Hin) as [x Hx].
              apply lookup_delete_Some in Hx as [_ Hx]. by eexists.
           ++ rewrite Hheap. apply map_eq. intros k'.
              cbn [remove_keys foldr]. fold (remove_keys keys (heap w l)).
              rewrite !lookup_remove_keys.
              destruct (decide (k = k')) as [->|Hne].
              ** rewrite !lookup_delete_eq. by destruct (decide (k' ∈ keys)).
              ** rewrite !lookup_delete_ne by done. by rewrite lookup_remove_keys.
           ++ intros k'. rewrite Htags.
              destruct (decide (k' ∈ keys)) as [Hin|Hin].
              ** rewrite decide_True by (by right).
                 destruct (decide (k = k')) as [->|Hne].
                 --- destruct (Hall k' Hin) as [? Hx]. by rewrite lookup_delete_eq in Hx.
                 --- by rewrite lookup_delete_ne.
              ** destruct (decide (k = k')) as [->|Hne].
                 --- rewrite decide_True by (by left). by rewrite lookup_insert_eq.
                 --- rewrite decide_False by (by intros [?|?]%elem_of_cons).
                     by rewrite lookup_insert_ne.
        -- destruct Hr as ((k' & -> & Hin) & Hnot). split.
           ++ exists k'. split; [done | by right].
           ++ intros [Hnd Hall]. apply Hnot.
              pose proof (NoDup_cons_1_1 _ _ Hnd) as Hk.
              apply NoDup_cons_1_2 in Hnd. split; [done|].
              intros k'' Hin''. destruct (Hall k'' ltac:(by right)) as [x Hx].
              exists x. apply lookup_delete_Some. split; [|done].
              intros ->. done.
    + injection Hrun as <- <-. split_and!; try done.
      * exists k. split; [done | by left].
      * intros [_ Hall]. destruct (Hall k ltac:(by left)) as [x Hx]. congruence.
Qed.

(** ** The field comprehension *)

Lemma select_field_run (allow : bool) (l : loc) (tks : list string)
    (k : string) (d : dict) (w : World) :
  select_field allow l tks k d w =
    if (bool_decide (is_Some (heap w l !! k)) || negb allow)
       && negb (bool_decide (k ∈ tks))
    then match heap w l !! k with
         | Some x => (Ret (<[k := x]> d), w)
         | None => (Raise (KeyError k), w)
         end
    else (Ret d, w).
Proof.
  unfold select_field. rewrite bind_run. unfold dict_contains.
  destruct ((bool_decide (is_Some (heap w l !! k)) || negb allow)
            && negb (bool_decide (k ∈ tks))); [|done].
  rewrite bind_run. unfold dict_getitem. by destruct (heap w l !! k).
Qed.

Lemma field_loop (allow : bool) (l : loc) (tks fks : list string) :
  ∀ (d0 : dict) (w : World) r w',
    for_in fks (select_field allow l tks) d0 w = (r, w') →
    w' = w ∧
    match r with
    | Ret d =>
        (∀ k, d !! k =
              if decide (k ∈ fks ∧ k ∉ tks)
              then match heap w l !! k with Some x => Some x | None => (d0 !! k) end
              else d0 !! k) ∧
        (allow = false → ∀ k, k ∈ fks → k ∉ tks → is_Some (heap w l !! k))
    | Raise e =>
        allow = false ∧
        ∃ k, e = KeyError k ∧ k ∈ fks ∧ (k ∉ tks) ∧ heap w l !! k = None
    end.
Proof.
  induction fks as [|k fks IH]; intros d0 w r w' Hrun.
  - cbn in Hrun. injection Hrun as <- <-. split; [done|]. split.
    + intros k. destruct (decide (k ∈ [] ∧ k ∉ tks)) as [[Hk _]|]; [|done].
      by apply elem_of_nil in Hk.
    + intros _ k Hk. by apply elem_of_nil in Hk.
  - rewrite for_in_cons, select_field_run in Hrun.
    destruct (bool_decide (k ∈ tks)) eqn:Etag.
    + (* a tag key: skipped whatever the policy *)
      rewrite andb_false_r in Hrun. apply bool_decide_eq_true in Etag.
      apply IH in Hrun as [-> Hr]. split; [done|].
      destruct r as [d|e].
      * destruct Hr as [Hd Hstrict]. split.
        -- intros k'. rewrite Hd.
           destruct (decide (k' ∈ fks ∧ k' ∉ tks)) as [[? ?]|Hn].
           ++ rewrite decide_True; [done|]. split; [by right | done].
           ++ rewrite decide_False; [done|].
              intros [Hin ?]. apply elem_of_cons in Hin as [->|?]; [done|]. by apply Hn.
        -- intros Ha k' [->|?]%elem_of_cons ?; [done|]. by apply Hstrict.
      * destruct Hr as (Ha & k' & -> & ? & ? & ?). split; [done|].
        exists k'. split_and!; try done. by right.
    + apply bool_decide_eq_false in Etag. rewrite andb_true_r in Hrun.
      destruct (heap w l !! k) as [x|] eqn:Ek.
      * (* present: selected *)
        rewrite bool_decide_eq_true_2 in Hrun by (by eexists). cbn [orb] in Hrun.
        apply IH in Hrun as [-> Hr]. split; [done|].
        destruct r as [d|e].
        -- destruct Hr as [Hd Hstrict]. split.
           ++ intros k'. rewrite Hd.
              destruct (decide (k = k')) as [<-|Hne].
              ** rewrite Ek, lookup_insert_eq.
                 rewrite (decide_True (P := k ∈ k :: fks ∧ k ∉ tks));
                   [|split; [by left | done]].
                 by destruct (decide (k ∈ fks ∧ k ∉ tks)).
              ** rewrite lookup_insert_ne by done.
                 destruct (decide (k' ∈ fks ∧ k' ∉ tks)) as [[? ?]|Hn].
                 --- rewrite decide_True; [done|]. split; [by right | done].
                 --- rewrite decide_False; [done|].
                     intros [Hin ?]. apply elem_of_cons in Hin as [->|?]; [done|]. by apply Hn.
           ++ intros Ha k' [->|?]%elem_of_cons ?; [by eexists|]. by apply Hstrict.
        -- destruct Hr as (Ha & k' & -> & ? & ? & ?). split; [done|].
           exists k'. split_and!; try done. by right.
      * rewrite bool_decide_eq_false_2 in Hrun by (by intros [? ?]).
        destruct allow; cbn in Hrun.
        -- (* permissive: skipped *)
           apply IH in Hrun as [-> Hr]. split; [done|].
           destruct r as [d|e]; [|by destruct Hr].
           destruct Hr as [Hd _]. split; [|done].
           intros k'. rewrite Hd.
           destruct (decide (k = k')) as [<-|Hne].
           ++ rewrite Ek.
              by destruct (decide (k ∈ fks ∧ k ∉ tks)),
                          (decide (k ∈ k :: fks ∧ k ∉ tks)).
           ++ destruct (decide (k' ∈ fks ∧ k' ∉ tks)) as [[? ?]|Hn].
              ** rewrite decide_True; [done|]. split; [by right | done].
              ** rewrite decide_False; [done|].
                 intros [Hin ?]. apply elem_of_cons in Hin as [->|?]; [done|]. by apply Hn.
        -- (* strict: KeyError *)
           injection Hrun as <- <-. split; [done|]. split; [done|].
           exists k. split_and!; try done. by left.
Qed.

(** ** One record *)

Lemma write_record_run (self : InfluxDB3Sink) (batch : SinkBatch)
    (item : SinkItem) (w : World) :
  write_record self batch item w =
    let l := value item in
    let v := heap w l in
    let tks := _tags_keys self v in
    let fks := _fields_keys self v in
    match for_in tks (pop_tag l) ∅ w with
    | (Raise e, w1) => (Raise e, w1)
    | (Ret tags, w1) =>
        let tags :=
          if _include_metadata_tags self then metadata_tags batch item tags
          else tags in
        match
          (if negb (bool_decide (fks = [])) then
             match for_in fks (select_field (_allow_missing_fields self) l tks) ∅ w1 with
             | (Ret d, w2) => (Ret (FieldsNew d), w2)
             | (Raise e, w2) => (Raise e, w2)
             end
           else (Ret (FieldsOfValue l), w1))
        with
        | (Raise e, w2) => (Raise e, w2)
        | (Ret fields, w2) =>
            match _time_key self with
            | Some time_key =>
                match heap w2 l !! time_key with
                | Some ts =>
                    (Ret {| measurement := _measurement self v; tags := tags;
                            fields := fields; time := ts |}, w2)
                | None => (Raise (KeyError time_key), w2)
                end
            | None =>
                (Ret {| measurement := _measurement self v; tags := tags;
                        fields := fields; time := VInt (timestamp item) |}, w2)
            end
        end
    end.
Proof.
  unfold write_record. rewrite bind_run. cbn [deref].
  rewrite bind_run.
  destruct (for_in _ (pop_tag _) _ _) as [[tags|e] w1]; [|done].
  rewrite bind_run. cbv zeta.
  destruct (negb (bool_decide (_ = []))).
  - rewrite bind_run.
    destruct (for_in _ (select_field _ _ _) _ _) as [[d|e] w2]; [|done].
    rewrite ret_run, bind_run.
    destruct (_time_key self) as [tk|]; [|done].
    unfold dict_getitem. by destruct (heap w2 _ !! tk).
  - rewrite ret_run, bind_run.
    destruct (_time_key self) as [tk|]; [|done].
    unfold dict_getitem. by destruct (heap w1 _ !! tk).
Qed.


Lemma lookup_restrict_dict (P : string → Prop) `{!∀ k, Decision (P k)}
    (d : dict) (k : string) :
  restrict P d !! k = if decide (P k) then d !! k else None.
Proof.
  unfold restrict. destruct (decide (P k)) as [HP|HP].
  - destruct (d !! k) as [v|] eqn:E.
    + by apply map_lookup_filter_Some.
    + apply map_lookup_filter_None. by left.
  - apply map_lookup_filter_None. right. by intros v _.
Qed.

(** What a record's turn does, in terms of the value [v0] the record holds
    when its turn begins. *)
Lemma write_record_spec (self : InfluxDB3Sink) (batch : SinkBatch)
    (item : SinkItem) (w : World) r w' :
  write_record self batch item w = (r, w') →
  let l := value item in
  let v0 := heap w l in
  let tks := _tags_keys self v0 in
  let fks := _fields_keys self v0 in
  same_outside w w' ∧
  (∀ l', l' ≠ l → heap w' l' = heap w l') ∧
  heap w' l ⊆ v0 ∧
  match r with
  | Ret p =>
      NoDup tks ∧ (∀ k, k ∈ tks → is_Some (v0 !! k)) ∧
      heap w' l = remove_keys tks v0 ∧
      measurement p = _measurement self v0 ∧
      tags p = (if _include_metadata_tags self
                then metadata_tags batch item (restrict (.∈ tks) v0)
                else restrict (.∈ tks) v0) ∧
      fields p = (if decide (fks = []) then FieldsOfValue l
                  else FieldsNew (restrict (λ k, k ∈ fks ∧ k ∉ tks) v0)) ∧
      (fks ≠ [] → _allow_missing_fields self = false →
       ∀ k, k ∈ fks → k ∉ tks → is_Some (v0 !! k)) ∧
      match _time_key self with
      | Some time_key => remove_keys tks v0 !! time_key = Some (time p)
      | None => time p = VInt (timestamp item)
      end
  | Raise e =>
      ∃ k, e = KeyError k ∧
        ((k ∈ tks ∧ ¬ (NoDup tks ∧ ∀ k', k' ∈ tks → is_Some (v0 !! k'))) ∨
         (fks ≠ [] ∧ _allow_missing_fields self = false ∧
          k ∈ fks ∧ (k ∉ tks) ∧ v0 !! k = None) ∨
         (_time_key self = Some k ∧ remove_keys tks v0 !! k = None))
  end.
Proof.
  intros Hrun l v0 tks fks. rewrite write_record_run in Hrun. cbv zeta in Hrun.
  fold l v0 tks fks in Hrun.
  destruct (for_in tks (pop_tag l) ∅ w) as [rt w1] eqn:Etags.
  apply pop_loop in Etags as (Hout1 & Hother1 & Hsub1 & Ht). fold v0 in Hsub1, Ht.
  destruct rt as [tags|e]; cycle 1.
  { injection Hrun as <- <-. split_and!; try done.
    destruct Ht as [(k & -> & Hin) Hnot]. exists k. split; [done|]. by left. }
  destruct Ht as (Hnd & Hall & Hheap & Htags).
  assert (tags = restrict (.∈ tks) v0) as ->.
  { apply map_eq. intros k. rewrite Htags, lookup_restrict_dict, lookup_empty.
    by destruct (decide (k ∈ tks)). }
  assert (∀ k, k ∉ tks → heap w1 l !! k = v0 !! k) as Hkeep.
  { intros k Hk. rewrite Hheap, lookup_remove_keys. by rewrite decide_False. }
  destruct (decide (fks = [])) as [Hfks|Hfks].
  - rewrite bool_decide_eq_true_2 in Hrun by done. cbn [negb] in Hrun.
    destruct (_time_key self) as [tk|] eqn:Etk.
    + destruct (heap w1 l !! tk) as [ts|] eqn:Ets.
      * injection Hrun as <- <-. split_and!; try done.
      all: try (cbn [time]; by rewrite <- Hheap).
      all: try (cbn [fields]; first [by rewrite decide_True | by rewrite decide_False]).
      * injection Hrun as <- <-. split_and!; try done.
        exists tk. split; [done|]. right. right. by rewrite <- Hheap.
    + injection Hrun as <- <-. split_and!; try done.
      all: try (cbn [time]; by rewrite <- Hheap).
      all: try (cbn [fields]; first [by rewrite decide_True | by rewrite decide_False]).
  - rewrite bool_decide_eq_false_2 in Hrun by done. cbn [negb] in Hrun.
    destruct (for_in fks _ ∅ w1) as [rf w2] eqn:Efields.
    apply field_loop in Efields as [-> Hf].
    destruct rf as [d|e]; cycle 1.
    { injection Hrun as <- <-. split_and!; try done.
      destruct Hf as (Ha & k & -> & Hin & Hnt & Hnone). exists k.
      split; [done|]. right. left. split_and!; try done.
      by rewrite <- Hkeep. }
    destruct Hf as [Hd Hstrict].
    assert (d = restrict (λ k, k ∈ fks ∧ k ∉ tks) v0) as ->.
    { apply map_eq. intros k. rewrite Hd, lookup_restrict_dict, lookup_empty.
      destruct (decide (k ∈ fks ∧ k ∉ tks)) as [[_ Hk]|]; [|done].
      rewrite (Hkeep k Hk). by destruct (v0 !! k). }
    assert (_allow_missing_fields self = false →
            ∀ k, k ∈ fks → k ∉ tks → is_Some (v0 !! k)) as Hstrict'.
    { intros Ha k Hin Hk. rewrite <- (Hkeep k Hk). by apply Hstrict. }
    destruct (_time_key self) as [tk|] eqn:Etk.
    + destruct (heap w1 l !! tk) as [ts|] eqn:Ets.
      * injection Hrun as <- <-. split_and!; try done.
      all: try (cbn [time]; by rewrite <- Hheap).
      all: try (cbn [fields]; first [by rewrite decide_True | by rewrite decide_False]).
      * injection Hrun as <- <-. split_and!; try done.
        exists tk. split; [done|]. right. right. by rewrite <- Hheap.
    + injection Hrun as <- <-. split_and!; try done.
      all: try (cbn [time]; by rewrite <- Hheap).
      all: try (cbn [fields]; first [by rewrite decide_True | by rewrite decide_False]).
Qed.

(** ** One chunk *)

Lemma py_min_raise (a b : pyval) e : py_min a b = Raise e → ∃ s, e = TypeError s.
Proof.
  unfold py_min, num_lt.
  destruct (py_number b), (py_number a); intros [=]; by eexists.
Qed.

Lemma py_max_raise (a b : pyval) e : py_max a b = Raise e → ∃ s, e = TypeError s.
Proof.
  unfold py_max, num_lt.
  destruct (py_number a), (py_number b); intros [=]; by eexists.
Qed.

Lemma add_record_run (self : InfluxDB3Sink) (batch : SinkBatch) (item : SinkItem)
    records mn mx (w : World) :
  add_record self batch item (records, mn, mx) w =
    match write_record self batch item w with
    | (Raise e, w1) => (Raise e, w1)
    | (Ret p, w1) =>
        match py_min (time p) mn with
        | Raise e => (Raise e, w1)
        | Ret mn' =>
            match py_max (time p) mx with
            | Raise e => (Raise e, w1)
            | Ret mx' => (Ret (records ++ [p], mn', mx'), w1)
            end
        end
    end.
Proof.
  unfold add_record. rewrite bind_run.
  destruct (write_record self batch item w) as [[p|e] w1]; [|done].
  rewrite bind_run. unfold lift.
  destruct (py_min (time p) mn); [|done].
  rewrite bind_run. by destruct (py_max (time p) mx).
Qed.

Lemma records_loop (self : InfluxDB3Sink) (batch : SinkBatch) (c : list SinkItem) :
  ∀ records mn mx (w : World) r w',
    for_in c (add_record self batch) (records, mn, mx) w = (r, w') →
    same_outside w w' ∧
    (∀ l, heap w' l ⊆ heap w l) ∧
    (∀ l, l ∉ value <$> c → heap w' l = heap w l) ∧
    match r with
    | Ret (records', _, _) =>
        ∃ new, records' = records ++ new ∧
               Forall2 (λ item pt, ∃ w1 w2,
                          write_record self batch item w1 = (Ret pt, w2)) c new
    | Raise e => (∃ k, e = KeyError k) ∨ (∃ s, e = TypeError s)
    end.
Proof.
  induction c as [|item c IH]; intros records mn mx w r w' Hrun.
  - cbn in Hrun. injection Hrun as <- <-. split_and!; try done.
    exists []. split; [by rewrite app_nil_r | constructor].
  - rewrite for_in_cons, add_record_run in Hrun.
    destruct (write_record self batch item w) as [rp w1] eqn:Erec.
    pose proof (write_record_spec _ _ _ _ _ _ Erec) as (Hout & Hother & Hsub & Hr).
    assert (∀ l, heap w1 l ⊆ heap w l) as Hsub1.
    { intros l. destruct (decide (l = value item)) as [->|Hne]; [done|].
      by rewrite Hother. }
    assert (∀ l, l ∉ value <$> item :: c → heap w1 l = heap w l) as Hfr1.
    { intros l Hl. apply Hother. intros ->. apply Hl. rewrite fmap_cons. by left. }
    destruct rp as [p|e]; cycle 1.
    { injection Hrun as <- <-. split_and!; try done.
      destruct Hr as (k & -> & _). left. by eexists. }
    destruct (py_min (time p) mn) as [mn'|e] eqn:Emin; cycle 1.
    { injection Hrun as <- <-. split_and!; try done.
      right. by eapply py_min_raise. }
    destruct (py_max (time p) mx) as [mx'|e] eqn:Emax; cycle 1.
    { injection Hrun as <- <-. split_and!; try done.
      right. by eapply py_max_raise. }
    apply IH in Hrun as (Hout' & Hsub' & Hfr' & Hr').
    split_and!.
    + by eapply same_outside_trans.
    + intros l. etrans; [apply Hsub' | apply Hsub1].
    + intros l Hl. rewrite Hfr'; [by apply Hfr1|].
      intros Hin. apply Hl. rewrite fmap_cons. by right.
    + destruct r as [[[records' ?] ?]|e]; [|done].
      destruct Hr' as (new & -> & Hall). exists (p :: new). split.
      * by rewrite <- app_assoc.
      * constructor; [by eexists _, _ | done].
Qed.

Lemma on_InfluxDBError_run (batch : SinkBatch) (exc : InfluxDBError) (w : World) :
  on_InfluxDBError batch exc w =
    (if write_limit_exceeded exc then
       match py_int (retry_after exc) with
       | Ret retry =>
           Raise (SinkBackpressureError retry (topic batch) (partition batch) exc)
       | Raise e => Raise e
       end
     else Raise (EInfluxDBError exc), w).
Proof.
  unfold on_InfluxDBError. destruct (write_limit_exceeded exc); [|done].
  rewrite bind_run. unfold lift. by destruct (py_int (retry_after exc)).
Qed.

Lemma write_chunk_spec (self : InfluxDB3Sink) (batch : SinkBatch)
    (c : list SinkItem) (w : World) r w' :
  write_chunk self batch c w = (r, w') →
  monotonic w' = monotonic w ∧
  (∀ l, heap w' l ⊆ heap w l) ∧
  (∀ l, l ∉ value <$> c → heap w' l = heap w l) ∧
  ((client_calls w' = client_calls w ∧ log w' = log w ∧
    ∃ e, r = Raise e ∧ local_error e) ∨
   (∃ call new w1,
      client_calls w' = client_calls w ++ [call] ∧
      (∃ mn mx, chunk_records self batch c w = (Ret (new, mn, mx), w1)) ∧
      call_record call = snapshot (heap w1) <$> new ∧
      heap w' = heap w1 ∧
      Forall2 (emitted self batch) c (call_record call) ∧
      call_write_precision call = _write_precision self ∧
      match call_outcome call with
      | WriteOk =>
          r = Ret tt ∧ clock_reads w' = S (S (clock_reads w)) ∧
          ∃ line, log w' = log w ++ [line] ∧
                  total_records line = length c ∧
                  time_elapsed line =
                    round2 (monotonic w (S (clock_reads w))
                            - monotonic w (clock_reads w))
      | WriteInfluxDBError exc =>
          log w' = log w ∧ r = (on_InfluxDBError batch exc w').1
      | WriteOtherError name =>
          log w' = log w ∧ r = Raise (EOther name)
      end)).
Proof.
  unfold write_chunk, chunk_records. rewrite bind_run.
  destruct (for_in c _ _ w) as [rr w1] eqn:Erecs.
  pose proof Erecs as Erecs'.
  apply records_loop in Erecs as ((Hmono & Hclock & Hcalls & Hlog) & Hsub & Hfr & Hr).
  destruct rr as [[[records mn] mx]|e]; cycle 1.
  { intros [= <- <-]. split_and!; try done. left. split_and!; try done.
    exists e. split; [done|]. destruct Hr as [[k ->]|[s ->]]; [left | right; left]; by eexists. }
  destruct Hr as (new & -> & Hall). cbn [app] in *.
  unfold try_except_InfluxDBError. rewrite bind_run. cbn [time_monotonic].
  rewrite bind_run. unfold client_write at 1.
  destruct (_client self) as [cl|]; cycle 1.
  { intros [= <- <-]. cbn. split_and!; try done. left. split_and!; try done.
    eexists. split; [done|]. right. right. by eexists. }
  cbn [heap monotonic clock_reads client_calls log].
  set (sent := snapshot (heap w1) <$> new).
  assert (Forall2 (emitted self batch) c sent) as Hsent.
  { subst sent. clear -Hall. induction Hall as [|item pt c new (wa & wb & Hx) _ IH].
    - constructor.
    - rewrite fmap_cons. constructor; [|done]. by exists wa, wb, pt, (heap w1). }
  destruct (write_outcome cl _ sent _) eqn:Eout.
  - rewrite bind_run. cbn. intros [= <- <-]. cbn.
    split_and!; try done. right. eexists _, new, w1. split_and!.
    + by rewrite Hcalls.
    + by eexists _, _.
    + done.
    + done.
    + done.
    + done.
    + cbn [call_outcome]. split_and!; [done|by rewrite Hclock|].
      eexists. split_and!.
      * by rewrite Hlog.
      * cbn. by apply Forall2_length in Hall.
      * cbn. by rewrite Hmono, Hclock.
  - intros Hh. rewrite on_InfluxDBError_run in Hh. injection Hh as <- <-. cbn.
    split_and!; try done. right. eexists _, new, w1. split_and!.
    + by rewrite Hcalls.
    + by eexists _, _.
    + done.
    + done.
    + done.
    + done.
    + cbn [call_outcome]. split; [done|].
      by rewrite on_InfluxDBError_run.
  - intros [= <- <-]. cbn.
    split_and!; try done. right. eexists _, new, w1. split_and!.
    + by rewrite Hcalls.
    + by eexists _, _.
    + done.
    + done.
    + done.
    + done.
    + cbn [call_outcome]. done.
Qed.

(** ** The whole batch *)

Lemma chunks_loop (self : InfluxDB3Sink) (batch : SinkBatch)
    (chunks : list (list SinkItem)) :
  ∀ (w : World) r w',
    for_in chunks (λ write_batch _, write_chunk self batch write_batch) tt w
      = (r, w') →
    monotonic w' = monotonic w ∧
    (∀ l, heap w' l ⊆ heap w l) ∧
    (∀ l, l ∉ value <$> concat chunks → heap w' l = heap w l) ∧
    ∃ calls lines,
      client_calls w' = client_calls w ++ calls ∧
      log w' = log w ++ lines ∧
      match r with
      | Ret _ =>
          Forall2 (chunk_sent self batch) chunks calls ∧
          clock_reads w' = (clock_reads w + 2 * length chunks)%nat ∧
          length lines = length chunks ∧
          ∀ i c, chunks !! i = Some c →
                 ∃ line, lines !! i = Some line ∧ chunk_logged w i c line
      | Raise e =>
          ∃ sent,
            Forall2 (chunk_sent self batch) (take (length sent) chunks) sent ∧
            ((calls = sent ∧ local_error e) ∨
             ∃ call, calls = sent ++ [call] ∧
               match call_outcome call with
               | WriteOk => False
               | WriteInfluxDBError exc =>
                   Raise e = (on_InfluxDBError batch exc w').1
               | WriteOtherError name => e = EOther name
               end)
      end.
Proof.
  induction chunks as [|c chunks IH]; intros w r w' Hrun.
  - cbn in Hrun. injection Hrun as <- <-. split_and!; try done.
    exists [], []. rewrite !app_nil_r. split_and!; try done.
    all: try constructor; cbn; try lia.
  - rewrite for_in_cons in Hrun.
    destruct (write_chunk self batch c w) as [rc w1] eqn:Echunk.
    apply write_chunk_spec in Echunk as (Hmono & Hsub & Hfr & Hcase).
    assert (∀ l, l ∉ value <$> concat (c :: chunks) → heap w1 l = heap w l) as Hfr1.
    { intros l Hl. apply Hfr. intros Hin. apply Hl.
      cbn [concat]. rewrite fmap_app, elem_of_app. by left. }
    destruct Hcase as [(Hcalls & Hlog & e & -> & Hloc)|(call & new & w1' & Hcalls & _ & _ & _ & Hsent & Hprec & Hout)].
    { injection Hrun as <- <-. split_and!; try done.
      exists [], []. rewrite !app_nil_r. split_and!; try done.
      exists []. split; [constructor|]. by left. }
    destruct (call_outcome call) as [|exc|name] eqn:Eout.
    + destruct Hout as (-> & Hclock & line & Hlog & Htotal & Helapsed).
      apply IH in Hrun as (Hmono' & Hsub' & Hfr' & calls & lines & Hcalls' & Hlog' & Hr).
      clear IH. split_and!.
      * congruence.
      * intros l. etrans; [apply Hsub' | apply Hsub].
      * intros l Hl. rewrite Hfr'; [by apply Hfr1|].
        intros Hin. apply Hl. cbn [concat]. rewrite fmap_app, elem_of_app. by right.
      * exists (call :: calls), (line :: lines). split_and!.
        -- by rewrite Hcalls', Hcalls, <- app_assoc.
        -- by rewrite Hlog', Hlog, <- app_assoc.
        -- destruct r as [[]|e].
           ++ destruct Hr as (Hall & Hclock' & Hlen & Hlines). split_and!.
              ** by constructor.
              ** rewrite Hclock', Hclock. cbn [length]. lia.
              ** cbn [length]. by rewrite Hlen.
              ** intros [|i] c' Hi.
                 --- injection Hi as <-. exists line. split; [done|].
                     split; [done|]. rewrite Helapsed.
                     by replace (clock_reads w + 2 * 0 + 1)%nat with (S (clock_reads w)) by lia;
                        replace (clock_reads w + 2 * 0)%nat with (clock_reads w) by lia.
                 --- destruct (Hlines i c' Hi) as (line' & Hl' & Htot' & Hel').
                     exists line'. split; [done|]. split; [done|].
                     rewrite Hel', Hmono, Hclock.
                     by replace (S (S (clock_reads w)) + 2 * i + 1)%nat
                          with (clock_reads w + 2 * S i + 1)%nat by lia;
                        replace (S (S (clock_reads w)) + 2 * i)%nat
                          with (clock_reads w + 2 * S i)%nat by lia.
           ++ destruct Hr as (sent & Hall & Hfail). exists (call :: sent). split.
              ** cbn [length take]. by constructor.
              ** destruct Hfail as [[-> Hloc]|(call' & -> & Hfail)]; [by left|].
                 right. by exists call'.
    + destruct Hout as [Hlog Hr]. rewrite Hr in Hrun.
      rewrite on_InfluxDBError_run in Hrun. cbn [fst] in Hrun.
      assert (∃ e, (if write_limit_exceeded exc
                    then match py_int (retry_after exc) with
                         | Ret retry => Raise (SinkBackpressureError retry (topic batch)
                                                 (partition batch) exc)
                         | Raise e => Raise e
                         end
                    else Raise (EInfluxDBError exc)) = (Raise e : res unit)) as [e He].
      { destruct (write_limit_exceeded exc); [|by eexists].
        destruct (py_int (retry_after exc)); by eexists. }
      rewrite He in Hrun. injection Hrun as <- <-.
      split_and!; try done.
      exists [call], []. rewrite app_nil_r. split_and!; try done.
      exists []. split; [constructor|]. right. exists call. split; [done|].
      rewrite Eout, on_InfluxDBError_run. by cbn [fst].
    + destruct Hout as [Hlog ->]. injection Hrun as <- <-.
      split_and!; try done.
      exists [call], []. rewrite app_nil_r. split_and!; try done.
      exists []. split; [constructor|]. right. exists call. split; [done|].
      by rewrite Eout.
Qed.

(** ** Chunking *)

Section chunks.
Context {A : Type}.
Implicit Types (l : list A) (n fuel : nat).

Lemma chunks_of_nil fuel n : chunks_of fuel n (@nil A) = [].
Proof. by destruct fuel. Qed.

Lemma chunks_of_cons fuel n x l :
  chunks_of (S fuel) n (x :: l) =
    take n (x :: l) :: chunks_of fuel n (drop n (x :: l)).
Proof. reflexivity. Qed.

Lemma concat_chunks_of fuel : ∀ n l,
  (0 < n)%nat → (length l ≤ fuel)%nat → concat (chunks_of fuel n l) = l.
Proof.
  induction fuel as [|fuel IH]; intros n l Hn Hl.
  - destruct l; [done | cbn in Hl; lia].
  - destruct l as [|x l]; [done|].
    rewrite chunks_of_cons. cbn [concat].
    rewrite IH; [apply take_drop | done |].
    rewrite length_drop. cbn [length] in *. lia.
Qed.

(** Sizes: as many full chunks as fit, then the remainder if any. *)
Lemma length_chunks_of fuel : ∀ n l,
  (0 < n)%nat → (length l ≤ fuel)%nat →
  length <$> chunks_of fuel n l =
    replicate (length l / n) n ++
    (if (length l mod n =? 0)%nat then [] else [(length l mod n)%nat]).
Proof.
  induction fuel as [|fuel IH]; intros n l Hn Hl.
  - destruct l; [|cbn in Hl; lia]. cbn [chunks_of length fmap list_fmap].
    rewrite Nat.Div0.div_0_l, Nat.Div0.mod_0_l. done.
  - destruct l as [|x l].
    { cbn [chunks_of length fmap list_fmap].
      rewrite Nat.Div0.div_0_l, Nat.Div0.mod_0_l. done. }
    rewrite chunks_of_cons, fmap_cons, length_take.
    set (len := length (x :: l)) in *.
    destruct (decide (len < n)%nat) as [Hlt|Hge].
    + rewrite drop_ge by (fold len; lia). rewrite chunks_of_nil.
      rewrite Nat.div_small, Nat.mod_small by done.
      assert (len ≠ 0)%nat as Hlen by (subst len; cbn; lia).
      apply Nat.eqb_neq in Hlen. rewrite Hlen.
      by rewrite Nat.min_r by lia.
    + rewrite IH; [|done|rewrite length_drop; fold len; lia].
      rewrite length_drop. fold len.
      assert (len `div` n = S ((len - n) `div` n) ∧
              len `mod` n = (len - n) `mod` n)%nat as [-> ->].
      { replace len with ((len - n) + 1 * n)%nat at 1 3 by lia.
        rewrite Nat.div_add, Nat.Div0.mod_add by lia. lia. }
      cbn [replicate app].
      by rewrite Nat.min_l by lia.
Qed.

Lemma chunks_of_bounds fuel : ∀ n l i c,
  (0 < n)%nat → (length l ≤ fuel)%nat →
  chunks_of fuel n l !! i = Some c →
  (0 < length c ≤ n)%nat ∧
  (S i < length (chunks_of fuel n l) → length c = n)%nat.
Proof.
  induction fuel as [|fuel IH]; intros n l i c Hn Hl Hi; [done|].
  destruct l as [|x l]; [done|].
  rewrite chunks_of_cons in Hi |- *.
  assert (length (drop n (x :: l)) ≤ fuel)%nat as Hl'.
  { rewrite length_drop. cbn [length] in *. lia. }
  destruct i as [|i].
  - injection Hi as <-. rewrite length_take. split.
    + cbn [length]. lia.
    + cbn [length]. intros Hmore.
      destruct (drop n (x :: l)) as [|y l'] eqn:Ed.
      { rewrite chunks_of_nil in Hmore. cbn in Hmore. lia. }
      assert (length (drop n (x :: l)) ≠ 0)%nat as Hd by (by rewrite Ed).
      rewrite length_drop in Hd. cbn [length] in Hd. lia.
  - cbn [lookup list_lookup] in Hi.
    destruct (IH n _ i c Hn Hl' Hi) as [Hb Hfull]. split; [done|].
    cbn [length]. intros Hmore. apply Hfull. lia.
Qed.
End chunks.

Lemma py_int_raise (v : pyval) e :
  py_int v = Raise e →
  (∃ s, e = TypeError s) ∨ (∃ s, e = ValueError (InvalidLiteralForInt s)).
Proof.
  destruct v as [| | | |s|s]; cbn; try done.
  - intros [= <-]. left. by eexists.
  - destruct (parse_int s); intros [= <-]. right. by eexists.
  - destruct (parse_int s); intros [= <-]. right. by eexists.
Qed.

Lemma write_limit_exceeded_spec (exc : InfluxDBError) :
  write_limit_exceeded exc = true ↔
  ∃ resp, response exc = Some resp ∧ status resp = 429 ∧
          py_truthy (retry_after exc) = true.
Proof.
  unfold write_limit_exceeded. destruct (response exc) as [resp|].
  - rewrite andb_true_iff, Z.eqb_eq. split.
    + intros [? ?]. by exists resp.
    + intros (? & [= <-] & ? & ?). done.
  - split; [done | by intros (? & ? & _)].
Qed.

Lemma chunk_sent_ok (self : InfluxDB3Sink) (batch : SinkBatch) chunks sent call :
  Forall2 (chunk_sent self batch) chunks sent → call ∈ sent →
  call_outcome call = WriteOk.
Proof.
  intros Hall Hin. apply Forall2_Forall_r with (Q := λ c, call_outcome c = WriteOk) in Hall.
  - by eapply Forall_forall in Hall.
  - apply Forall_true. intros c call' (_ & _ & ?). done.
Qed.

(** What [write] leaves behind, whatever the outcome. *)
Lemma write_spec (self : InfluxDB3Sink) (batch : SinkBatch) (w : World) :
  let r := (write self batch w).1 in
  let w' := (write self batch w).2 in
  let chunks := iter_chunks batch (_batch_size self) in
  monotonic w' = monotonic w ∧
  (∀ l, heap w' l ⊆ heap w l) ∧
  (∀ l, l ∉ value <$> concat chunks → heap w' l = heap w l) ∧
  client_calls w' = client_calls w ++ new_calls w w' ∧
  log w' = log w ++ new_log w w' ∧
  match r with
  | Ret _ =>
      Forall2 (chunk_sent self batch) chunks (new_calls w w') ∧
      clock_reads w' = (clock_reads w + 2 * length chunks)%nat ∧
      length (new_log w w') = length chunks ∧
      ∀ i c, chunks !! i = Some c →
             ∃ line, new_log w w' !! i = Some line ∧ chunk_logged w i c line
  | Raise e =>
      ∃ sent,
        Forall2 (chunk_sent self batch) (take (length sent) chunks) sent ∧
        ((new_calls w w' = sent ∧ local_error e) ∨
         ∃ call, new_calls w w' = sent ++ [call] ∧
           match call_outcome call with
           | WriteOk => False
           | WriteInfluxDBError exc =>
               Raise e = (on_InfluxDBError batch exc w').1
           | WriteOtherError name => e = EOther name
           end)
  end.
Proof.
  intros r w' chunks. subst r w'.
  destruct (write self batch w) as [r w'] eqn:Hrun. cbn [fst snd].
  unfold write in Hrun. fold chunks in Hrun.
  apply chunks_loop in Hrun
    as (Hmono & Hsub & Hfr & calls & lines & Hcalls & Hlog & Hr).
  assert (new_calls w w' = calls) as ->.
  { unfold new_calls. by rewrite Hcalls, drop_app_length. }
  assert (new_log w w' = lines) as ->.
  { unfold new_log. by rewrite Hlog, drop_app_length. }
  done.
Qed.

(** ** The points in terms of the values the records arrive with *)

Lemma write_record_point (self : InfluxDB3Sink) (batch : SinkBatch)
    (item : SinkItem) (w : World) p w' :
  write_record self batch item w = (Ret p, w') →
  snapshot (heap w') p = output_point self batch item (heap w (value item)).
Proof.
  intros Hrun. apply write_record_spec in Hrun
    as (_ & _ & _ & _ & _ & Hheap & Hm & Ht & Hf & _ & Hts).
  destruct p as [m t f ts]. cbn [measurement tags fields time] in *.
  unfold snapshot, output_point. cbn [measurement tags fields time].
  subst m t f. f_equal.
  - destruct (decide (_ = [])); [done | done].
  - destruct (_time_key self); [by rewrite Hts | done].
Qed.



Lemma chunks_of_elem {A : Type} (fuel : nat) : ∀ (n : nat) (l : list A) (x : A),
  x ∈ concat (chunks_of fuel n l) → x ∈ l.
Proof.
  induction fuel as [|fuel IH]; intros n l x Hx.
  - by apply elem_of_nil in Hx.
  - destruct l as [|y l]; [done|].
    rewrite chunks_of_cons in Hx. cbn [concat] in Hx.
    apply elem_of_app in Hx as [Hx|Hx].
    + apply list_elem_of_lookup in Hx as [i Hi].
      apply lookup_take_Some in Hi as [Hi _]. by eapply list_elem_of_lookup_2.
    + apply IH in Hx. apply list_elem_of_lookup in Hx as [i Hi].
      rewrite lookup_drop in Hi. by eapply list_elem_of_lookup_2.
Qed.

Lemma concat_iter_chunks (batch : SinkBatch) (n : Z) :
  0 < n → concat (iter_chunks batch n) = items batch.
Proof. intros Hn. unfold iter_chunks. apply concat_chunks_of; lia. Qed.

(** * The claims *)

(** C1.  A 429 whose [Retry-After] is an HTTP date is neither translated nor
    passed on.  The one request of the batch is refused with status 429 and a
    [retry_after] that is set; [int(exc.retry_after)] raises inside the
    handler and its [ValueError] leaves [write]: no [SinkBackpressureError]
    is raised, and the destination's error does not propagate unchanged
    either. *)
Theorem write_retry_after_http_date :
  let self := Scenario.plain Sample.throttling_until_date in
  let exc := Sample.retry_at_date in
  let r := (write self (Sample.batch 1) Sample.world).1 in
  let w' := (write self (Sample.batch 1) Sample.world).2 in
  (∃ call, new_calls Sample.world w' = [call] ∧
           call_outcome call = WriteInfluxDBError exc) ∧
  (∃ resp, response exc = Some resp ∧ status resp = 429) ∧
  py_truthy (retry_after exc) = true ∧
  r = Raise (ValueError (InvalidLiteralForInt "Wed, 21 Oct 2015 07:28:00 GMT")) ∧
  (∀ retry t p cause, r ≠ Raise (SinkBackpressureError retry t p cause)) ∧
  r ≠ Raise (EInfluxDBError exc).
Proof.
  cbv zeta.
  assert ((write (Scenario.plain Sample.throttling_until_date)
             (Sample.batch 1) Sample.world).1
          = Raise (ValueError
                     (InvalidLiteralForInt "Wed, 21 Oct 2015 07:28:00 GMT")))
    as Hrun by (vm_compute; reflexivity).
  split_and!.
  - eexists. split; reflexivity.
  - eexists. split; reflexivity.
  - reflexivity.
  - exact Hrun.
  - intros retry t p cause. rewrite Hrun. discriminate.
  - rewrite Hrun. discriminate.
Qed.

(** C2.  When the transformation of a record completes, no resolved tag key
    is a key of the point's fields: a non-empty field selection leaves the
    tag keys out, and with an empty one the fields are the record's value,
    from which the tag keys have been popped.  The field-key function may
    well name a tag key. *)
Theorem tag_keys_not_in_fields (self : InfluxDB3Sink) (batch : SinkBatch)
    (item : SinkItem) (w : World) p w' :
  write_record self batch item w = (Ret p, w') →
  let v0 := heap w (value item) in
  let tks := _tags_keys self v0 in
  let fks := _fields_keys self v0 in
  (∀ k, k ∈ tks → fields (snapshot (heap w') p) !! k = None) ∧
  (fks ≠ [] → fields p = FieldsNew (restrict (λ k, k ∈ fks ∧ k ∉ tks) v0)) ∧
  (fks = [] → fields p = FieldsOfValue (value item) ∧
              heap w' (value item) = remove_keys tks v0).
Proof.
  intros Hrun v0 tks fks.
  pose proof (write_record_point _ _ _ _ _ _ Hrun) as Hpt.
  apply write_record_spec in Hrun
    as (_ & _ & _ & _ & _ & Hheap & _ & _ & Hf & _).
  fold v0 tks fks in Hheap, Hf, Hpt. split_and!.
  - intros k Hk. rewrite Hpt. unfold output_point. cbn [fields].
    fold v0 tks fks. destruct (decide (fks = [])).
    + rewrite lookup_remove_keys. by rewrite decide_True.
    + rewrite lookup_restrict_dict. rewrite decide_False; [done|]. by intros [_ ?].
  - intros Hne. by rewrite decide_False in Hf.
  - intros Heq. by rewrite decide_True in Hf.
Qed.

(** C3 does not hold as stated: with the strict policy, a field key that is
    also a resolved tag key is absent from the value once the tags are popped,
    yet the record is transformed without a key error. *)
Lemma missing_field_tag_key_not_raised :
  ¬ (∀ (self : InfluxDB3Sink) (batch : SinkBatch) (item : SinkItem)
       (w : World) (k : string),
       let v0 := heap w (value item) in
       k ∈ _fields_keys self v0 →
       remove_keys (_tags_keys self v0) v0 !! k = None →
       _allow_missing_fields self = false →
       ∃ k', (write_record self batch item w).1 = Raise (KeyError k')).
Proof.
  intros H.
  destruct (H (Sample.sink (Static "cpu") Sample.all_keys (Static ["host"])
                 None false false 1000 (Some Sample.accepting))
              (Sample.batch 1%nat) (Sample.item 0%nat) Sample.world "host")
    as [k' Hk'].
  - cbn. left.
  - reflexivity.
  - reflexivity.
  - vm_compute in Hk'. discriminate Hk'.
Qed.

(** C3, amended.  Let a resolved field key be absent from the record's value
    and not be a resolved tag key.  With [allow_missing_fields=False] the
    transformation fails with a key error.  With [allow_missing_fields=True]
    the key is left out of the fields, every other selected key is taken with
    its value, and the transformation completes whenever the tag keys and the
    time key can be read. *)
Theorem missing_field_policy (self : InfluxDB3Sink) (batch : SinkBatch)
    (item : SinkItem) (w : World) (k : string) :
  let v0 := heap w (value item) in
  let tks := _tags_keys self v0 in
  let fks := _fields_keys self v0 in
  k ∈ fks → k ∉ tks → v0 !! k = None →
  (_allow_missing_fields self = false →
   ∃ k', (write_record self batch item w).1 = Raise (KeyError k')) ∧
  (_allow_missing_fields self = true →
   (∀ p w', write_record self batch item w = (Ret p, w') →
            ∃ d, fields p = FieldsNew d ∧ d !! k = None ∧
                 ∀ k', k' ∈ fks → k' ∉ tks → d !! k' = v0 !! k') ∧
   (NoDup tks → (∀ t, t ∈ tks → is_Some (v0 !! t)) →
    (∀ time_key, _time_key self = Some time_key →
                 is_Some (remove_keys tks v0 !! time_key)) →
    ∃ p, (write_record self batch item w).1 = Ret p)).
Proof.
  intros v0 tks fks Hin Hnt Hnone.
  assert (fks ≠ []) as Hne by (intros E; rewrite E in Hin; by apply elem_of_nil in Hin).
  destruct (write_record self batch item w) as [r w'] eqn:Hrun.
  pose proof (write_record_spec _ _ _ _ _ _ Hrun) as (_ & _ & _ & Hr).
  fold v0 tks fks in Hr. cbn [fst]. split.
  - intros Hstrict. destruct r as [p|e].
    + destruct Hr as (_ & _ & _ & _ & _ & _ & Hall & _).
      destruct (Hall Hne Hstrict k Hin Hnt) as [x Hx]. congruence.
    + destruct Hr as (k' & -> & _). by exists k'.
  - intros Hallow. split.
    + intros p w'' [= -> ->].
      destruct Hr as (_ & _ & _ & _ & _ & Hf & _).
      rewrite decide_False in Hf by done. eexists. split; [done|]. split.
      * rewrite lookup_restrict_dict. by rewrite decide_True.
      * intros k' ? ?. rewrite lookup_restrict_dict. by rewrite decide_True.
    + intros Hnd Htags Htime. destruct r as [p|e]; [by eexists|].
      destruct Hr as (k' & -> & [[_ Hbad]|[(_ & Hbad & _)|[Htk Hbad]]]).
      * by destruct Hbad.
      * congruence.
      * destruct (Htime k' Htk) as [x Hx]. congruence.
Qed.

(** C4.  With an empty resolved field-key set the fields of the point are the
    record's value without the resolved tag keys: every other key with its
    value, and nothing else. *)
Theorem empty_field_keys_whole_value (self : InfluxDB3Sink) (batch : SinkBatch)
    (item : SinkItem) (w : World) p w' :
  write_record self batch item w = (Ret p, w') →
  let v0 := heap w (value item) in
  let tks := _tags_keys self v0 in
  _fields_keys self v0 = [] →
  fields (snapshot (heap w') p) = remove_keys tks v0 ∧
  ∀ k, fields (snapshot (heap w') p) !! k =
       if decide (k ∈ tks) then None else v0 !! k.
Proof.
  intros Hrun v0 tks Hempty.
  apply write_record_point in Hrun. rewrite Hrun.
  unfold output_point. cbn [fields]. fold v0 tks.
  rewrite decide_True by done. split; [done|].
  intros k. apply lookup_remove_keys.
Qed.

(** C10.  With [include_metadata_tags=True] the tags [__key], [__topic] and
    [__partition] of the point are the record's key and the batch's topic and
    partition, whatever the record's value holds under these names, also
    when they are among the resolved tag keys; the other tags are the
    record's own. *)
Theorem metadata_tags_override (self : InfluxDB3Sink) (batch : SinkBatch)
    (item : SinkItem) (w : World) p w' :
  _include_metadata_tags self = true →
  write_record self batch item w = (Ret p, w') →
  let v0 := heap w (value item) in
  let tks := _tags_keys self v0 in
  tags p !! "__key" = Some (key item) ∧
  tags p !! "__topic" = Some (VStr (topic batch)) ∧
  tags p !! "__partition" = Some (VInt (partition batch)) ∧
  ∀ k, k ∉ ["__key"; "__topic"; "__partition"] →
       tags p !! k = if decide (k ∈ tks) then v0 !! k else None.
Proof.
  intros Hmeta Hrun v0 tks.
  apply write_record_spec in Hrun as (_ & _ & _ & _ & _ & _ & _ & Ht & _).
  rewrite Hmeta in Ht. rewrite Ht. unfold metadata_tags. fold v0 tks.
  split_and!.
  - rewrite lookup_insert_ne by done. rewrite lookup_insert_ne by done.
    by rewrite lookup_insert_eq.
  - rewrite lookup_insert_ne by done. by rewrite lookup_insert_eq.
  - by rewrite lookup_insert_eq.
  - intros k Hk.
    rewrite !lookup_insert_ne; [apply lookup_restrict_dict | | |];
      intros <-; apply Hk; set_solver.
Qed.

(** C5.  With a positive chunk size, the batch is cut into consecutive
    chunks of at most [batch_size] records that together are the batch in its
    original order, only the last one possibly smaller.  When [write]
    returns, it has made one request per chunk, in order, each with one point
    per record of the chunk in the records' order, and has logged one line
    per chunk whose elapsed time is the difference of the two clock readings
    taken around that chunk's request.  For 2500 records and chunks of 1000
    these are exactly three requests of 1000, 1000 and 500 points. *)
Theorem write_chunking (self : InfluxDB3Sink) (batch : SinkBatch) (w : World) :
  0 < _batch_size self →
  let chunks := iter_chunks batch (_batch_size self) in
  let w' := (write self batch w).2 in
  (concat chunks = items batch ∧
   ∀ i c, chunks !! i = Some c →
     (0 < length c ≤ Z.to_nat (_batch_size self))%nat ∧
     (S i < length chunks → length c = Z.to_nat (_batch_size self))%nat) ∧
  ((write self batch w).1 = Ret tt →
   Forall2 (chunk_sent self batch) chunks (new_calls w w') ∧
   (λ call, length (call_record call)) <$> new_calls w w' = length <$> chunks ∧
   clock_reads w' = (clock_reads w + 2 * length chunks)%nat ∧
   length (new_log w w') = length chunks ∧
   (∀ i c, chunks !! i = Some c →
           ∃ line, new_log w w' !! i = Some line ∧ chunk_logged w i c line) ∧
   (length (items batch) = 2500%nat → _batch_size self = 1000 →
    (λ call, length (call_record call)) <$> new_calls w w'
      = [1000; 1000; 500]%nat)).
Proof.
  intros Hpos chunks w'. split.
  - split; [by apply concat_iter_chunks|].
    intros i c Hi. apply (chunks_of_bounds (length (items batch)) _ (items batch));
      [lia | done | done].
  - intros Hret.
    pose proof (write_spec self batch w) as (_ & _ & _ & _ & _ & Hr).
    cbv zeta in Hr. rewrite Hret in Hr.
    fold chunks w' in Hr. destruct Hr as (Hall & Hclock & Hlen & Hlines).
    assert ((λ call, length (call_record call)) <$> new_calls w w'
            = length <$> chunks) as Hsizes.
    { clear -Hall. induction Hall as [|c call chunks calls (Hpts & _) _ IH]; [done|].
      rewrite !fmap_cons. f_equal; [|done]. symmetry. by eapply Forall2_length. }
    split_and!; try done.
    intros Hitems Hsize. rewrite Hsizes. subst chunks. unfold iter_chunks.
    rewrite length_chunks_of by lia. rewrite Hitems, Hsize. reflexivity.
Qed.

(** C6 does not hold as stated: disjoint static keys do not make the
    construction succeed when the time precision is not a known one. *)
Lemma init_rejects_invalid_precision :
  ¬ (∀ (a : Init.args) (fk tk : list string),
       Init.fields_keys a = Static fk → Init.tags_keys a = Static tk →
       (∀ k, k ∈ fk → k ∉ tk) →
       ∃ sink, __init__ a = Ret sink).
Proof.
  intros H.
  destruct (H (Sample.args (Static ["usage"]) (Static ["host"]) "min")
              ["usage"] ["host"]) as [sink Hsink].
  - reflexivity.
  - reflexivity.
  - intros k Hk%list_elem_of_singleton Hk'%list_elem_of_singleton. by subst.
  - vm_compute in Hsink. discriminate Hsink.
Qed.

Lemma init_run (a : Init.args) :
  Init.time_precision a ∈ TimePrecision_args →
  ∃ precision,
    _TIME_PRECISIONS (Init.time_precision a) = Some precision.
Proof.
  unfold TimePrecision_args. rewrite !elem_of_cons, elem_of_nil.
  intros [->|[->|[->|[->|[]]]]]; by eexists.
Qed.

(** C6, amended.  With a time precision among ["ms"], ["ns"], ["us"], ["s"],
    constructing the sink succeeds for static, disjoint field and tag keys.
    When both setters are static and their keys intersect, the constructor
    raises [ValueError].  [write] never raises this error: the check is made
    at construction only. *)
Theorem init_overlap_validation (a : Init.args) (fk tk : list string) :
  Init.fields_keys a = Static fk → Init.tags_keys a = Static tk →
  ((∀ k, k ∈ fk → k ∉ tk) →
   Init.time_precision a ∈ TimePrecision_args →
   ∃ sink, __init__ a = Ret sink) ∧
  ((∃ k, k ∈ fk ∧ k ∈ tk) → ∃ why, __init__ a = Raise (ValueError why)) ∧
  (∀ self batch w e,
     (write self batch w).1 = Raise e → configuration_error e = false).
Proof.
  intros Hfk Htk. split_and!.
  - intros Hdisj Hprec. destruct (init_run a Hprec) as [precision Hp].
    unfold __init__, fields_tags_keys_overlap.
    rewrite bool_decide_eq_true_2 by done.
    rewrite Hfk, Htk, Hp. cbn [negb callable andb].
    rewrite bool_decide_eq_true_2; [by eexists|].
    apply set_eq. intros k. rewrite elem_of_intersection, !elem_of_list_to_set.
    split; [|by intros ?%not_elem_of_empty].
    intros [? ?]. by destruct (Hdisj k).
  - intros (k & Hkf & Hkt). unfold __init__, fields_tags_keys_overlap.
    destruct (bool_decide (Init.time_precision a ∈ TimePrecision_args));
      [|by eexists].
    rewrite Hfk, Htk. cbn [negb callable andb].
    rewrite bool_decide_eq_false_2; [by eexists|].
    intros Hempty. apply (not_elem_of_empty (C := gset string) k).
    rewrite <- Hempty, elem_of_intersection, !elem_of_list_to_set. done.
  - intros self batch w e Hrun.
    pose proof (write_spec self batch w) as (_ & _ & _ & _ & _ & Hr).
    cbv zeta in Hr. rewrite Hrun in Hr.
    destruct Hr as (sent & _ & [[_ Hloc]|(call & _ & Hout)]).
    { by destruct Hloc as [[? ->]|[[? ->]|[? ->]]]. }
    destruct (call_outcome call) as [|exc|name]; [done| |by subst].
    rewrite on_InfluxDBError_run in Hout. cbn [fst] in Hout.
    destruct (write_limit_exceeded exc); [|by injection Hout as ->].
    destruct (py_int (retry_after exc)) as [retry|e'] eqn:Hint.
    + by injection Hout as ->.
    + injection Hout as ->. by apply py_int_raise in Hint as [[s ->]|[s ->]].
Qed.


(** C8.  Resolving a static measurement, fields or tags setter gives a
    function that returns the constant for every value; resolving a callable
    gives the callable itself; so resolving a static setter twice gives
    functions that agree everywhere.  The constructor stores these resolved
    functions. *)
Theorem setter_resolution :
  (∀ c v, _measurement_callable (Static c) v = c) ∧
  (∀ c v, _fields_callable (Static c) v = c) ∧
  (∀ c v, _tags_callable (Static c) v = c) ∧
  (∀ f, _measurement_callable (Callable f) = f) ∧
  (∀ f, _fields_callable (Callable f) = f) ∧
  (∀ f, _tags_callable (Callable f) = f) ∧
  (∀ c v1 v2, _measurement_callable (Static c) v1 = _measurement_callable (Static c) v2) ∧
  (∀ c v1 v2, _fields_callable (Static c) v1 = _fields_callable (Static c) v2) ∧
  (∀ c v1 v2, _tags_callable (Static c) v1 = _tags_callable (Static c) v2) ∧
  (∀ a sink, __init__ a = Ret sink →
             _measurement sink = _measurement_callable (Init.measurement a) ∧
             _fields_keys sink = _fields_callable (Init.fields_keys a) ∧
             _tags_keys sink = _tags_callable (Init.tags_keys a)).
Proof.
  split_and!; try done.
  intros a sink. unfold __init__.
  destruct (negb (bool_decide (Init.time_precision a ∈ TimePrecision_args)));
    [done|].
  cbn [mbind res_bind].
  destruct (if negb (callable (Init.fields_keys a)) && negb (callable (Init.tags_keys a))
            then _ else _); [|done].
  destruct (_TIME_PRECISIONS (Init.time_precision a)); [|done].
  by intros [= <-].
Qed.

(** C9 does not hold as stated: [write] pops the tag keys from the record's
    own dictionary, which is not the same afterwards. *)
Lemma write_mutates_record_value :
  ¬ (∀ (self : InfluxDB3Sink) (batch : SinkBatch) (w : World) (item : SinkItem),
       item ∈ items batch →
       heap (write self batch w).2 (value item) = heap w (value item)).
Proof.
  intros H.
  specialize (H (Sample.sink (Static "cpu") (Static []) (Static ["host"])
                   None false false 1000 (Some Sample.accepting))
                (Sample.batch 1%nat) Sample.world (Sample.item 0%nat)).
  assert (heap (write (Sample.sink (Static "cpu") (Static []) (Static ["host"])
                         None false false 1000 (Some Sample.accepting))
                  (Sample.batch 1%nat) Sample.world).2 (value (Sample.item 0%nat))
            !! "host" = None) as Hafter by (vm_compute; reflexivity).
  rewrite H in Hafter; [|by left].
  vm_compute in Hafter. discriminate Hafter.
Qed.

(** C9, amended.  There is no working copy: the tag keys are popped from the
    record's own dictionary.  When a record's transformation completes, its
    dictionary is what it was without the resolved tag keys, and no other
    dictionary has changed.  Whatever the outcome, [write] only removes
    entries: it neither adds nor changes one, and it leaves the dictionaries
    of objects outside the batch as they were. *)
Theorem value_popped_in_place (self : InfluxDB3Sink) (batch : SinkBatch) :
  (∀ item w p w',
     write_record self batch item w = (Ret p, w') →
     heap w' (value item)
       = remove_keys (_tags_keys self (heap w (value item))) (heap w (value item)) ∧
     ∀ l, l ≠ value item → heap w' l = heap w l) ∧
  (∀ w l,
     heap (write self batch w).2 l ⊆ heap w l ∧
     (l ∉ value <$> items batch → heap (write self batch w).2 l = heap w l)).
Proof.
  split.
  - intros item w p w' Hrun.
    apply write_record_spec in Hrun as (_ & Hother & _ & _ & _ & Hheap & _).
    done.
  - intros w l.
    pose proof (write_spec self batch w) as (_ & Hsub & Hfr & _).
    cbv zeta in Hsub, Hfr. split; [done|].
    intros Hl. apply Hfr. intros Hin. apply Hl.
    apply list_elem_of_fmap in Hin as (item & -> & Hin).
    apply list_elem_of_fmap_2. unfold iter_chunks in Hin. by eapply chunks_of_elem.
Qed.

(** * The claims on sample runs *)

Import Sample Scenario.

(** The dynamic field selection names the tag ["host"]; it is not a field. *)
Lemma tag_keys_not_in_fields_witness :
  let '(r, w') := write_record overlapping (batch 1) (item 0) world in
  match r with
  | Ret p => fields (snapshot (heap w') p) !! "host" = None
  | Raise _ => False
  end.
Proof.
  destruct (write_record overlapping (batch 1) (item 0) world)
    as [[p|e] w'] eqn:Hrun.
  - apply (tag_keys_not_in_fields _ _ _ _ _ _ Hrun). simpl. left.
  - vm_compute in Hrun. discriminate Hrun.
Defined.

(** ["temp"] is missing: a key error when strict, a point when permissive. *)
Lemma missing_field_policy_witness :
  (∃ k', (write_record (missing_field false) (batch 1) (item 0) world).1
           = Raise (KeyError k')) ∧
  (∃ p, (write_record (missing_field true) (batch 1) (item 0) world).1 = Ret p).
Proof.
  split.
  - apply (missing_field_policy (missing_field false) (batch 1) (item 0) world "temp").
    + simpl. right. left.
    + apply (bool_decide_unpack _). vm_compute. exact I.
    + reflexivity.
    + reflexivity.
  - apply (missing_field_policy (missing_field true) (batch 1) (item 0) world "temp").
    + simpl. right. left.
    + apply (bool_decide_unpack _). vm_compute. exact I.
    + reflexivity.
    + reflexivity.
    + apply (bool_decide_unpack _). vm_compute. exact I.
    + intros t Ht. apply list_elem_of_singleton in Ht. subst t.
      eexists. reflexivity.
    + intros time_key Hkey. discriminate Hkey.
Defined.

(** No field key: the fields are the value without ["host"]. *)
Lemma empty_field_keys_whole_value_witness :
  let '(r, w') := write_record tagged (batch 1) (item 0) world in
  match r with
  | Ret p => fields (snapshot (heap w') p) = remove_keys ["host"] record_value
  | Raise _ => False
  end.
Proof.
  destruct (write_record tagged (batch 1) (item 0) world)
    as [[p|e] w'] eqn:Hrun.
  - apply (empty_field_keys_whole_value _ _ _ _ _ _ Hrun). reflexivity.
  - vm_compute in Hrun. discriminate Hrun.
Defined.

(** 2500 records, chunks of 1000. *)
Lemma write_chunking_witness :
  (λ call, length (call_record call))
    <$> new_calls world (write (plain accepting) (batch 2500) world).2
  = [1000; 1000; 500]%nat.
Proof.
  assert (0 < _batch_size (plain accepting)) as Hpos by reflexivity.
  destruct (write_chunking (plain accepting) (batch 2500) world Hpos) as [_ H].
  apply H.
  - vm_compute. reflexivity.
  - vm_compute. reflexivity.
  - reflexivity.
Defined.

(** Static, disjoint keys and the precision ["ms"]; then a shared key. *)
Lemma init_overlap_validation_witness :
  (∃ sink, __init__ (args (Static ["usage"]) (Static ["host"]) "ms") = Ret sink) ∧
  (∃ why, __init__ (args (Static ["host"; "usage"]) (Static ["host"]) "ms")
            = Raise (ValueError why)).
Proof.
  split.
  - apply (init_overlap_validation
             (args (Static ["usage"]) (Static ["host"]) "ms") ["usage"] ["host"]).
    + reflexivity.
    + reflexivity.
    + intros k Hk Hk'. apply list_elem_of_singleton in Hk, Hk'. by subst.
    + simpl. left.
  - apply (init_overlap_validation
             (args (Static ["host"; "usage"]) (Static ["host"]) "ms")
             ["host"; "usage"] ["host"]).
    + reflexivity.
    + reflexivity.
    + exists "host". split; left.
Defined.


Lemma setter_resolution_witness :
  ∃ sink, __init__ (args (Static ["usage"]) (Static ["host"]) "ms") = Ret sink ∧
          _fields_keys sink = _fields_callable (Static ["usage"]).
Proof.
  pose proof setter_resolution as (_ & _ & _ & _ & _ & _ & _ & _ & _ & H).
  eexists. split; [reflexivity|].
  apply (H (args (Static ["usage"]) (Static ["host"]) "ms") _ eq_refl).
Defined.

(** After the record's turn its dictionary has lost ["host"]. *)
Lemma value_popped_in_place_witness :
  let '(r, w') := write_record tagged (batch 1) (item 0) world in
  match r with
  | Ret p => heap w' 0%nat = remove_keys ["host"] record_value
  | Raise _ => False
  end.
Proof.
  destruct (write_record tagged (batch 1) (item 0) world)
    as [[p|e] w'] eqn:Hrun.
  - apply (proj1 (value_popped_in_place tagged (batch 1)) (item 0) world p w' Hrun).
  - vm_compute in Hrun. discriminate Hrun.
Defined.

(** The record holds ["__key"] = ["mine"]; the tag is the record's key. *)
Lemma metadata_tags_override_witness :
  let '(r, w') := write_record reserved (batch 1) (item 0) world in
  match r with
  | Ret p => tags p !! "__key" = Some (VBytes "k")
  | Raise _ => False
  end.
Proof.
  destruct (write_record reserved (batch 1) (item 0) world)
    as [[p|e] w'] eqn:Hrun.
  - apply (metadata_tags_override reserved (batch 1) (item 0) world p w' eq_refl Hrun).
  - vm_compute in Hrun. discriminate Hrun.
Defined.

(** * Further properties of the code *)

(** ** Loops *)

Lemma for_in_app {A S : Type} (l1 l2 : list A) (body : A → S → M S) :
  ∀ (acc : S) (w : World),
    for_in (l1 ++ l2) body acc w =
      match for_in l1 body acc w with
      | (Ret acc', w1) => for_in l2 body acc' w1
      | (Raise e, w1) => (Raise e, w1)
      end.
Proof.
  induction l1 as [|x l1 IH]; intros acc w; [done|].
  cbn [app]. rewrite !for_in_cons.
  destruct (body x acc w) as [[acc'|e] w1]; [apply IH | done].
Qed.

Lemma for_in_raise {A S : Type} (l : list A) (body : A → S → M S) :
  ∀ (acc : S) (w : World) e w',
    for_in l body acc w = (Raise e, w') →
    ∃ x acc0 w0, x ∈ l ∧ body x acc0 w0 = (Raise e, w').
Proof.
  induction l as [|x l IH]; intros acc w e w' Hrun; [done|].
  rewrite for_in_cons in Hrun.
  destruct (body x acc w) as [[acc'|e'] w1] eqn:Hbody.
  - destruct (IH _ _ _ _ Hrun) as (y & acc0 & w0 & Hy & Hbody').
    exists y, acc0, w0. split; [by right | done].
  - injection Hrun as <- <-. exists x, acc, w. split; [by left | done].
Qed.

(** ** The body of the chunk loop, step by step *)

Lemma write_chunk_run (self : InfluxDB3Sink) (batch : SinkBatch)
    (c : list SinkItem) (w : World) :
  write_chunk self batch c w =
    match chunk_records self batch c w with
    | (Raise e, w1) => (Raise e, w1)
    | (Ret (records, mn, mx), w1) =>
        let started := (time_monotonic w1).2 in
        match _client self with
        | None =>
            (Raise (AttributeError "'NoneType' object has no attribute 'write'"),
             started)
        | Some client =>
            let sent := snapshot (heap w1) <$> records in
            let outcome :=
              write_outcome client (length (client_calls w1)) sent
                            (_write_precision self) in
            let requested :=
              {| heap := heap w1; monotonic := monotonic w1;
                 clock_reads := S (clock_reads w1);
                 client_calls := client_calls w1 ++
                   [{| call_record := sent;
                       call_write_precision := _write_precision self;
                       call_outcome := outcome |}];
                 log := log w1 |} in
            match outcome with
            | WriteOk =>
                (Ret tt,
                 {| heap := heap w1; monotonic := monotonic w1;
                    clock_reads := S (S (clock_reads w1));
                    client_calls := client_calls requested;
                    log := log w1 ++
                      [{| total_records := length records;
                          min_timestamp := mn;
                          max_timestamp := mx;
                          time_elapsed :=
                            round2 (monotonic w1 (S (clock_reads w1))
                                    - monotonic w1 (clock_reads w1)) |}] |})
            | WriteInfluxDBError exc => on_InfluxDBError batch exc requested
            | WriteOtherError name => (Raise (EOther name), requested)
            end
        end
    end.
Proof.
  unfold write_chunk. rewrite bind_run.
  destruct (chunk_records self batch c w) as [[[[records mn] mx]|e] w1]; [|done].
  unfold try_except_InfluxDBError. rewrite bind_run. cbn [time_monotonic snd].
  rewrite bind_run. unfold client_write at 1.
  destruct (_client self) as [client|]; [|done].
  cbn [heap monotonic clock_reads client_calls log].
  destruct (write_outcome client _ _ _); try done.
Qed.

(** ** Construction *)

Lemma init_cases (a : Init.args) :
  __init__ a =
    if bool_decide (Init.time_precision a ∈ TimePrecision_args) then
      match fields_tags_keys_overlap a with
      | Some overlap =>
          if bool_decide (overlap = ∅) then
            match _TIME_PRECISIONS (Init.time_precision a) with
            | Some precision =>
                Ret {| _client_args :=
                         {| arg_token := Init.token a;
                            arg_host := Init.host a;
                            arg_org := Init.organization_id a;
                            arg_database := Init.database a;
                            arg_debug := Init.debug a;
                            arg_enable_gzip := Init.enable_gzip a;
                            arg_timeout := Init.request_timeout_ms a |};
                       _client := None;
                       _measurement := _measurement_callable (Init.measurement a);
                       _fields_keys := _fields_callable (Init.fields_keys a);
                       _tags_keys := _tags_callable (Init.tags_keys a);
                       _include_metadata_tags := Init.include_metadata_tags a;
                       _time_key := Init.time_key a;
                       _write_precision := precision;
                       _batch_size := Init.batch_size a;
                       _allow_missing_fields := Init.allow_missing_fields a |}
            | None => Raise (KeyError (Init.time_precision a))
            end
          else Raise (ValueError (KeysOverlap overlap))
      | None =>
          match _TIME_PRECISIONS (Init.time_precision a) with
          | Some precision =>
              Ret {| _client_args :=
                       {| arg_token := Init.token a;
                          arg_host := Init.host a;
                          arg_org := Init.organization_id a;
                          arg_database := Init.database a;
                          arg_debug := Init.debug a;
                          arg_enable_gzip := Init.enable_gzip a;
                          arg_timeout := Init.request_timeout_ms a |};
                     _client := None;
                     _measurement := _measurement_callable (Init.measurement a);
                     _fields_keys := _fields_callable (Init.fields_keys a);
                     _tags_keys := _tags_callable (Init.tags_keys a);
                     _include_metadata_tags := Init.include_metadata_tags a;
                     _time_key := Init.time_key a;
                     _write_precision := precision;
                     _batch_size := Init.batch_size a;
                     _allow_missing_fields := Init.allow_missing_fields a |}
          | None => Raise (KeyError (Init.time_precision a))
          end
      end
    else Raise (ValueError (InvalidTimePrecision (Init.time_precision a))).
Proof.
  unfold __init__, fields_tags_keys_overlap.
  destruct (bool_decide (Init.time_precision a ∈ TimePrecision_args)); [|done].
  cbn [negb mbind res_bind].
  destruct (Init.fields_keys a), (Init.tags_keys a); cbn [callable negb andb];
    try destruct (bool_decide (_ = ∅)); cbn [negb mbind res_bind];
    try done; by destruct (_TIME_PRECISIONS (Init.time_precision a)).
Qed.

Lemma overlap_empty (fk tk : list string) :
  (list_to_set fk ∩ list_to_set tk : gset string) = ∅ ↔ ∀ k, k ∈ fk → k ∉ tk.
Proof.
  split.
  - intros Hempty k Hf Ht. apply (not_elem_of_empty (C := gset string) k).
    rewrite <- Hempty, elem_of_intersection, !elem_of_list_to_set. done.
  - intros Hdisj. apply set_eq. intros k.
    rewrite elem_of_intersection, !elem_of_list_to_set.
    split; [|by intros ?%not_elem_of_empty].
    intros [? ?]. by destruct (Hdisj k).
Qed.

(** X1.  The constructor succeeds exactly when the time precision is one of
    ["ms"], ["ns"], ["us"], ["s"] and, in case both key setters are static,
    their lists share no key.  A callable setter on either side switches the
    overlap check off. *)
Theorem init_succeeds_iff (a : Init.args) :
  (∃ sink, __init__ a = Ret sink) ↔
  Init.time_precision a ∈ TimePrecision_args ∧
  ∀ fk tk, Init.fields_keys a = Static fk → Init.tags_keys a = Static tk →
           ∀ k, k ∈ fk → k ∉ tk.
Proof.
  rewrite init_cases. unfold fields_tags_keys_overlap. split.
  - intros [sink Hsink].
    destruct (bool_decide (_ ∈ TimePrecision_args)) eqn:Hp; [|done].
    apply bool_decide_eq_true in Hp. split; [done|].
    intros fk tk Hfk Htk. rewrite Hfk, Htk in Hsink.
    destruct (bool_decide (_ = ∅)) eqn:He; [|done].
    apply bool_decide_eq_true in He. by apply overlap_empty.
  - intros [Hp Hdisj]. rewrite bool_decide_eq_true_2 by done.
    destruct (init_run a Hp) as [precision ->].
    destruct (Init.fields_keys a) as [fk|], (Init.tags_keys a) as [tk|];
      try by eexists.
    rewrite bool_decide_eq_true_2; [by eexists|].
    apply overlap_empty. by apply Hdisj.
Qed.

(** X2.  The constructor raises nothing but [ValueError].  An unknown time
    precision is reported first, whatever the keys; otherwise the error is
    the overlap of two static key lists and carries exactly their common
    keys, of which there is at least one. *)
Theorem init_error (a : Init.args) e :
  __init__ a = Raise e →
  ((Init.time_precision a ∉ TimePrecision_args) ∧
   e = ValueError (InvalidTimePrecision (Init.time_precision a))) ∨
  (Init.time_precision a ∈ TimePrecision_args ∧
   ∃ fk tk, Init.fields_keys a = Static fk ∧ Init.tags_keys a = Static tk ∧
            e = ValueError (KeysOverlap (list_to_set fk ∩ list_to_set tk)) ∧
            ∃ k, k ∈ fk ∧ k ∈ tk).
Proof.
  rewrite init_cases. unfold fields_tags_keys_overlap.
  destruct (bool_decide (_ ∈ TimePrecision_args)) eqn:Hp.
  - apply bool_decide_eq_true in Hp. destruct (init_run a Hp) as [precision ->].
    intros Hraise. right. split; [done|].
    destruct (Init.fields_keys a) as [fk|], (Init.tags_keys a) as [tk|]; try done.
    destruct (bool_decide (_ = ∅)) eqn:He; [done|].
    apply bool_decide_eq_false in He. injection Hraise as <-.
    exists fk, tk. split_and!; try done.
    apply set_choose_L in He as [k Hk].
    apply elem_of_intersection in Hk as [Hf Ht].
    apply elem_of_list_to_set in Hf, Ht. by exists k.
  - apply bool_decide_eq_false in Hp. intros [= <-]. by left.
Qed.

(** X21.  The write precision of a constructed sink is the one its
    [time_precision] names: ["ms"], ["ns"], ["us"] and ["s"] give
    milliseconds, nanoseconds, microseconds and seconds, and no other string
    gets through. *)
Theorem init_write_precision (a : Init.args) (sink : InfluxDB3Sink) :
  __init__ a = Ret sink →
  (Init.time_precision a = "ms" ∧ _write_precision sink = MS) ∨
  (Init.time_precision a = "ns" ∧ _write_precision sink = NS) ∨
  (Init.time_precision a = "us" ∧ _write_precision sink = US) ∨
  (Init.time_precision a = "s" ∧ _write_precision sink = S_).
Proof.
  intros Hinit.
  rewrite init_cases in Hinit.
  destruct (bool_decide (_ ∈ TimePrecision_args)) eqn:Hp; [|done].
  apply bool_decide_eq_true in Hp.
  assert (_TIME_PRECISIONS (Init.time_precision a) = Some (_write_precision sink))
    as Htable.
  { destruct (fields_tags_keys_overlap a) as [overlap|];
      [destruct (bool_decide _); [|done]|];
      destruct (_TIME_PRECISIONS _); try done; by injection Hinit as <-. }
  unfold TimePrecision_args in Hp. rewrite !elem_of_cons, elem_of_nil in Hp.
  destruct Hp as [E|[E|[E|[E|[]]]]]; rewrite E in Htable |- *;
    injection Htable as <-; tauto.
Qed.

(** ** One record *)

(** X3.  A record is transformed exactly when its resolved tag keys are
    pairwise distinct and all present in its value, every selected field key
    that is not a tag key is present unless missing fields are allowed, and
    the time key, if one is configured, is present and is not a tag key.  So a
    missing or repeated tag key fails the record whatever
    [allow_missing_fields] says. *)
Theorem write_record_completes_iff (self : InfluxDB3Sink) (batch : SinkBatch)
    (item : SinkItem) (w : World) :
  let v0 := heap w (value item) in
  let tks := _tags_keys self v0 in
  let fks := _fields_keys self v0 in
  (∃ p, (write_record self batch item w).1 = Ret p) ↔
  NoDup tks ∧ (∀ k, k ∈ tks → is_Some (v0 !! k)) ∧
  (_allow_missing_fields self = false →
   ∀ k, k ∈ fks → k ∉ tks → is_Some (v0 !! k)) ∧
  (∀ time_key, _time_key self = Some time_key →
               (time_key ∉ tks) ∧ is_Some (v0 !! time_key)).
Proof.
  intros v0 tks fks.
  destruct (write_record self batch item w) as [r w'] eqn:Hrun. cbn [fst].
  apply write_record_spec in Hrun as (_ & _ & _ & Hr). fold v0 tks fks in Hr.
  split.
  - intros [p ->]. destruct Hr as (Hnd & Hall & _ & _ & _ & _ & Hstrict & Htime).
    split_and!; try done.
    + intros Hs k Hk Hnt. apply Hstrict; try done.
      intros E. rewrite E in Hk. by apply elem_of_nil in Hk.
    + intros tk Htk. rewrite Htk, lookup_remove_keys in Htime.
      destruct (decide (tk ∈ tks)); [done|]. split; [done | by eexists].
  - intros (Hnd & Hall & Hstrict & Htime). destruct r as [p|e]; [by eexists|].
    destruct Hr as (k & -> & [[_ Hbad]|[(_ & Hs & Hk & Hnt & Hnone)|[Htk Hnone]]]).
    + by destruct Hbad.
    + destruct (Hstrict Hs k Hk Hnt) as [x Hx]. congruence.
    + destruct (Htime k Htk) as [Hnt [x Hx]].
      rewrite lookup_remove_keys, decide_False in Hnone by done. congruence.
Qed.

(** X4.  Nothing is rolled back when a tag key cannot be popped: the
    error names the first tag key that is missing or repeated, and the tag
    keys before it are gone from the record's value for good. *)
Theorem failed_pop_keeps_earlier_pops (self : InfluxDB3Sink) (batch : SinkBatch)
    (item : SinkItem) (w : World) (before after : list string) (k : string) :
  let v0 := heap w (value item) in
  _tags_keys self v0 = before ++ k :: after →
  NoDup before → (∀ k', k' ∈ before → is_Some (v0 !! k')) →
  v0 !! k = None ∨ k ∈ before →
  (write_record self batch item w).1 = Raise (KeyError k) ∧
  heap (write_record self batch item w).2 (value item) = remove_keys before v0 ∧
  ∀ l, l ≠ value item → heap (write_record self batch item w).2 l = heap w l.
Proof.
  intros v0 Htks Hnd Hall Hk.
  rewrite write_record_run. cbv zeta. fold v0. rewrite Htks, for_in_app.
  destruct (for_in before (pop_tag (value item)) ∅ w) as [rt w1] eqn:Hpre.
  apply pop_loop in Hpre as (_ & Hother & _ & Hr). fold v0 in Hr.
  destruct rt as [tags|e]; [|by destruct Hr as [_ []]].
  destruct Hr as (_ & _ & Hheap & _).
  rewrite for_in_cons, pop_tag_run.
  assert (heap w1 (value item) !! k = None) as ->.
  { rewrite Hheap, lookup_remove_keys. destruct (decide (k ∈ before)); [done|].
    by destruct Hk. }
  done.
Qed.

(** X5.  The time of a point: without a time key it is the record's own
    timestamp; with one it is the entry of the record's value under that key,
    which is read, not popped: it stays in the value (and so among the fields
    when no field key is given). *)
Theorem record_time (self : InfluxDB3Sink) (batch : SinkBatch)
    (item : SinkItem) (w : World) p w' :
  write_record self batch item w = (Ret p, w') →
  match _time_key self with
  | None => time p = VInt (timestamp item)
  | Some time_key =>
      heap w (value item) !! time_key = Some (time p) ∧
      heap w' (value item) !! time_key = Some (time p)
  end.
Proof.
  intros Hrun.
  apply write_record_spec in Hrun as (_ & _ & _ & _ & _ & Hheap & _ & _ & _ & _ & Ht).
  destruct (_time_key self) as [tk|]; [|done].
  rewrite Hheap. split; [|done].
  rewrite lookup_remove_keys in Ht. by destruct (decide (tk ∈ _)).
Qed.

(** X6.  The tag names of a point are exactly the resolved tag keys, together
    with [__key], [__topic] and [__partition] when metadata is included and
    with nothing else when it is not. *)
Theorem tag_names (self : InfluxDB3Sink) (batch : SinkBatch)
    (item : SinkItem) (w : World) p w' :
  write_record self batch item w = (Ret p, w') →
  dom (tags p) =
    list_to_set (_tags_keys self (heap w (value item))) ∪
    (if _include_metadata_tags self
     then {[ "__key"; "__topic"; "__partition" ]} else ∅).
Proof.
  intros Hrun.
  apply write_record_spec in Hrun as (_ & _ & _ & _ & Hall & _ & _ & Ht & _).
  rewrite Ht.
  assert (dom (restrict (.∈ _tags_keys self (heap w (value item)))
                 (heap w (value item)))
          = (list_to_set (_tags_keys self (heap w (value item))) : gset string))
    as Hdom.
  { apply set_eq. intros k.
    rewrite elem_of_dom, lookup_restrict_dict, elem_of_list_to_set.
    destruct (decide (k ∈ _)) as [Hk|Hk]; [|by split; [intros [? ?]|]].
    split; [done | intros _; by apply Hall]. }
  destruct (_include_metadata_tags self).
  - unfold metadata_tags. rewrite !dom_insert_L, Hdom.
    apply set_eq. intros k.
    rewrite !elem_of_union, !elem_of_singleton. tauto.
  - rewrite Hdom. by rewrite union_empty_r_L.
Qed.

(** X7.  With no field key given, no entry of the record is lost and none is
    duplicated: the entries under the tag keys and the fields of the point
    are disjoint and together make up the value the record arrived with. *)
Theorem tags_and_fields_partition_value (self : InfluxDB3Sink) (batch : SinkBatch)
    (item : SinkItem) (w : World) p w' :
  write_record self batch item w = (Ret p, w') →
  let v0 := heap w (value item) in
  let user_tags := restrict (.∈ _tags_keys self v0) v0 in
  _fields_keys self v0 = [] →
  user_tags ##ₘ fields (snapshot (heap w') p) ∧
  user_tags ∪ fields (snapshot (heap w') p) = v0.
Proof.
  intros Hrun v0 user_tags Hempty.
  apply write_record_point in Hrun. rewrite Hrun.
  unfold output_point. cbn [fields]. fold v0.
  rewrite decide_True by done. subst user_tags. split.
  - apply map_disjoint_spec. intros k x y Hx Hy.
    rewrite lookup_restrict_dict in Hx. rewrite lookup_remove_keys in Hy.
    by destruct (decide (k ∈ _tags_keys self v0)).
  - apply map_eq. intros k.
    rewrite lookup_union, lookup_restrict_dict, lookup_remove_keys.
    destruct (decide (k ∈ _tags_keys self v0)); destruct (v0 !! k); done.
Qed.

(** X8.  The sink takes values from the record and nowhere else: the fields
    of a point are entries of the value the record arrived with, unchanged,
    under keys of the field selection when there is one; and a tag that is
    not one of the reserved metadata tags is an entry of that value too. *)
Theorem point_entries_come_from_value (self : InfluxDB3Sink) (batch : SinkBatch)
    (item : SinkItem) (w : World) p w' :
  write_record self batch item w = (Ret p, w') →
  let v0 := heap w (value item) in
  fields (snapshot (heap w') p) ⊆ v0 ∧
  (_fields_keys self v0 ≠ [] →
   dom (fields (snapshot (heap w') p)) ⊆ list_to_set (_fields_keys self v0)) ∧
  ∀ k x, tags p !! k = Some x → k ∉ ["__key"; "__topic"; "__partition"] →
         v0 !! k = Some x.
Proof.
  intros Hrun v0.
  pose proof (write_record_point _ _ _ _ _ _ Hrun) as Hpt.
  apply write_record_spec in Hrun as (_ & _ & _ & _ & _ & _ & _ & Ht & _).
  fold v0 in Hpt, Ht. rewrite Hpt. unfold output_point. cbn [fields]. fold v0.
  split_and!.
  - destruct (decide (_ = [])); [apply remove_keys_subseteq|].
    apply map_subseteq_spec. intros k x. rewrite lookup_restrict_dict.
    by destruct (decide _).
  - intros Hne. rewrite decide_False by done. intros k.
    rewrite elem_of_dom, lookup_restrict_dict, elem_of_list_to_set.
    destruct (decide _) as [[? ?]|]; [done | by intros [? ?]].
  - intros k x Hk Hres. rewrite Ht in Hk.
    assert (restrict (.∈ _tags_keys self v0) v0 !! k = Some x) as Hk'.
    { destruct (_include_metadata_tags self); [|done].
      unfold metadata_tags in Hk.
      rewrite !lookup_insert_ne in Hk; [done | | |];
        intros <-; apply Hres; rewrite !elem_of_cons; tauto. }
    rewrite lookup_restrict_dict in Hk'. by destruct (decide _).
Qed.

(** X9.  A reserved name can end up on both sides of a point.  With metadata
    included, if the record's value has an entry [__key] that is not asked
    for as a tag and no field key is given, the point has the tag [__key]
    (the record's key) and also the field [__key] (the record's entry). *)
Theorem reserved_name_tag_and_field (self : InfluxDB3Sink) (batch : SinkBatch)
    (item : SinkItem) (w : World) p w' x :
  write_record self batch item w = (Ret p, w') →
  let v0 := heap w (value item) in
  _include_metadata_tags self = true →
  _fields_keys self v0 = [] →
  "__key" ∉ _tags_keys self v0 →
  v0 !! "__key" = Some x →
  tags p !! "__key" = Some (key item) ∧
  fields (snapshot (heap w') p) !! "__key" = Some x.
Proof.
  intros Hrun v0 Hmeta Hempty Hnt Hx.
  pose proof (write_record_point _ _ _ _ _ _ Hrun) as Hpt.
  apply write_record_spec in Hrun as (_ & _ & _ & _ & _ & _ & _ & Ht & _).
  fold v0 in Hpt, Ht. split.
  - rewrite Ht, Hmeta. unfold metadata_tags.
    rewrite lookup_insert_ne by done. rewrite lookup_insert_ne by done.
    by rewrite lookup_insert_eq.
  - rewrite Hpt. unfold output_point. cbn [fields]. fold v0.
    rewrite decide_True by done. rewrite lookup_remove_keys.
    by rewrite decide_False.
Qed.

(** ** One chunk *)

Lemma py_min_ret (a b c : pyval) :
  py_min a b = Ret c → is_Some (py_number a) ∧ is_Some (py_number b).
Proof.
  unfold py_min, num_lt.
  destruct (py_number b), (py_number a); done.
Qed.

Lemma py_min_int (a b : Z) : py_min (VInt a) (VInt b) = Ret (VInt (Z.min a b)).
Proof.
  unfold py_min, num_lt, Qlt_bool, Qle_bool. cbn.
  rewrite !Z.mul_1_r. destruct (Z.leb_spec a b).
  - cbn. by rewrite Z.min_l.
  - cbn. by rewrite Z.min_r by lia.
Qed.

Lemma py_max_int (a b : Z) : py_max (VInt a) (VInt b) = Ret (VInt (Z.max a b)).
Proof.
  unfold py_max, num_lt, Qlt_bool, Qle_bool. cbn.
  rewrite !Z.mul_1_r. destruct (Z.leb_spec b a).
  - cbn. by rewrite Z.max_l.
  - cbn. by rewrite Z.max_r by lia.
Qed.

(** The points of a chunk that is transformed: one per record, each with a
    number for its time. *)
Lemma records_loop_times (self : InfluxDB3Sink) (batch : SinkBatch)
    (c : list SinkItem) :
  ∀ records mn mx (w : World) records' mn' mx' w',
    for_in c (add_record self batch) (records, mn, mx) w
      = (Ret (records', mn', mx'), w') →
    ∃ new, records' = records ++ new ∧ length new = length c ∧
           Forall (λ pt, is_Some (py_number (time pt))) new.
Proof.
  induction c as [|item c IH]; intros records mn mx w records' mn' mx' w' Hrun.
  - cbn in Hrun. injection Hrun as <- <- <- <-.
    exists []. by rewrite app_nil_r.
  - rewrite for_in_cons, add_record_run in Hrun.
    destruct (write_record self batch item w) as [[p|e] w1]; [|done].
    destruct (py_min (time p) mn) as [mn1|e] eqn:Hmin; [|done].
    destruct (py_max (time p) mx) as [mx1|e]; [|done].
    apply IH in Hrun as (new & -> & Hlen & Hall).
    exists (p :: new). split_and!.
    + by rewrite <- app_assoc.
    + cbn [length]. by rewrite Hlen.
    + constructor; [|done]. by apply py_min_ret in Hmin as [? _].
Qed.

(** Without a time key the running minimum and maximum are those of the
    records' timestamps and of the values they start from. *)
Lemma records_loop_min_max (self : InfluxDB3Sink) (batch : SinkBatch)
    (c : list SinkItem) :
  _time_key self = None →
  ∀ records (mn mx : Z) (w : World) records' mn' mx' w',
    for_in c (add_record self batch) (records, VInt mn, VInt mx) w
      = (Ret (records', mn', mx'), w') →
    ∃ lo hi : Z,
      mn' = VInt lo ∧ mx' = VInt hi ∧
      lo ≤ mn ∧ mx ≤ hi ∧
      (∀ item, item ∈ c → lo ≤ timestamp item ≤ hi) ∧
      (lo = mn ∨ ∃ item, item ∈ c ∧ lo = timestamp item) ∧
      (hi = mx ∨ ∃ item, item ∈ c ∧ hi = timestamp item).
Proof.
  intros Hkey.
  induction c as [|item c IH]; intros records mn mx w records' mn' mx' w' Hrun.
  - cbn in Hrun. injection Hrun as <- <- <- <-.
    exists mn, mx. split_and!; try done; try lia; try by left.
    intros item Hin. by apply elem_of_nil in Hin.
  - rewrite for_in_cons, add_record_run in Hrun.
    destruct (write_record self batch item w) as [[p|e] w1] eqn:Hrec; [|done].
    apply write_record_spec in Hrec
      as (_ & _ & _ & _ & _ & _ & _ & _ & _ & _ & Hrec).
    rewrite Hkey in Hrec. rewrite Hrec in Hrun.
    rewrite py_min_int, py_max_int in Hrun.
    apply IH in Hrun as (lo & hi & -> & -> & Hlo & Hhi & Hall & Hmin & Hmax).
    exists lo, hi. split_and!; try done; try lia.
    + intros item' [->|Hin]%elem_of_cons; [lia | by apply Hall].
    + destruct Hmin as [->|(item' & Hin & ->)].
      * destruct (Z.min_spec (timestamp item) mn) as [[_ ->]|[_ ->]];
          [right; exists item; split; [by left | done] | by left].
      * right. exists item'. split; [by right | done].
    + destruct Hmax as [->|(item' & Hin & ->)].
      * destruct (Z.max_spec (timestamp item) mx) as [[_ ->]|[_ ->]];
          [by left | right; exists item; split; [by left | done]].
      * right. exists item'. split; [by right | done].
Qed.

(** When the key [k] is among the resolved tag keys of every value, a chunk
    is transformed only if every record had [k] when the chunk's turn began
    and no two records hold the same dictionary object; afterwards [k] is
    gone from every record of the chunk. *)
Lemma records_loop_common_tag (self : InfluxDB3Sink) (batch : SinkBatch)
    (k : string) (c : list SinkItem) :
  (∀ v, k ∈ _tags_keys self v) →
  ∀ acc (w : World) acc' w',
    for_in c (add_record self batch) acc w = (Ret acc', w') →
    NoDup (value <$> c) ∧
    (∀ item, item ∈ c → is_Some (heap w (value item) !! k)) ∧
    (∀ item, item ∈ c → heap w' (value item) !! k = None).
Proof.
  intros Hcommon.
  induction c as [|item c IH]; intros [[records mn] mx] w acc' w' Hrun.
  - split_and!; [constructor | |]; intros item Hin; by apply elem_of_nil in Hin.
  - rewrite for_in_cons, add_record_run in Hrun.
    destruct (write_record self batch item w) as [[p|e] w1] eqn:Hrec; [|done].
    pose proof (write_record_spec _ _ _ _ _ _ Hrec)
      as (_ & Hother & Hsub & _ & Hall & Hheap & _).
    destruct (py_min (time p) mn) as [mn1|e]; [|done].
    destruct (py_max (time p) mx) as [mx1|e]; [|done].
    pose proof (records_loop _ _ _ _ _ _ _ _ _ Hrun) as (_ & Hshrink & _).
    apply IH in Hrun as (Hnd & Hhad & Hgone).
    assert (heap w1 (value item) !! k = None) as Hpopped.
    { rewrite Hheap, lookup_remove_keys. by rewrite decide_True. }
    assert (∀ l, heap w1 l ⊆ heap w l) as Hsub1.
    { intros l. destruct (decide (l = value item)) as [->|Hne]; [done|].
      by rewrite Hother. }
    split_and!.
    + rewrite fmap_cons. constructor; [|done].
      intros (item' & Heq & Hin)%list_elem_of_fmap.
      destruct (Hhad item' Hin) as [x Hx]. rewrite <- Heq in Hx. congruence.
    + intros item' [->|Hin]%elem_of_cons.
      * by apply Hall.
      * destruct (Hhad item' Hin) as [x Hx]. exists x.
        by eapply lookup_weaken; [|apply Hsub1].
    + intros item' [->|Hin]%elem_of_cons; [|by apply Hgone].
      destruct (heap w' (value item) !! k) as [x|] eqn:Hx; [|done].
      eapply lookup_weaken in Hx; [|apply Hshrink]. congruence.
Qed.

Lemma write_chunk_ret (self : InfluxDB3Sink) (batch : SinkBatch)
    (c : list SinkItem) (w w' : World) :
  write_chunk self batch c w = (Ret tt, w') →
  ∃ records mn mx w1 call,
    chunk_records self batch c w = (Ret (records, mn, mx), w1) ∧
    heap w' = heap w1 ∧
    client_calls w' = client_calls w ++ [call] ∧
    log w' = log w ++ [{| total_records := length records;
                          min_timestamp := mn; max_timestamp := mx;
                          time_elapsed :=
                            round2 (monotonic w (S (clock_reads w))
                                    - monotonic w (clock_reads w)) |}].
Proof.
  rewrite write_chunk_run.
  destruct (chunk_records self batch c w) as [[[[records mn] mx]|e] w1] eqn:Hrecs;
    [|done].
  unfold chunk_records in Hrecs.
  pose proof (records_loop _ _ _ _ _ _ _ _ _ Hrecs)
    as ((Hmono & Hclock & Hcalls & Hlog) & _).
  cbv zeta. destruct (_client self) as [client|]; [|done].
  destruct (write_outcome client _ _ _) as [|exc|name]; [| |done].
  - intros [= <-]. eexists records, mn, mx, w1, _. cbn.
    rewrite Hmono, Hclock, Hcalls, Hlog. done.
  - rewrite on_InfluxDBError_run.
    destruct (write_limit_exceeded exc); [|done].
    by destruct (py_int (retry_after exc)).
Qed.

(** Every request of [write] is a request of one turn of its loop. *)
Lemma write_calls_from_chunks (self : InfluxDB3Sink) (batch : SinkBatch)
    (P : ClientCall → Prop) :
  (∀ c w r w', write_chunk self batch c w = (r, w') →
               ∀ call, call ∈ new_calls w w' → P call) →
  ∀ w call, call ∈ new_calls w (write self batch w).2 → P call.
Proof.
  intros Hchunk w. unfold write.
  generalize (iter_chunks batch (_batch_size self)). intros chunks. revert w.
  induction chunks as [|c chunks IH]; intros w call Hin.
  - cbn in Hin. unfold new_calls in Hin. rewrite drop_all in Hin.
    by apply elem_of_nil in Hin.
  - rewrite for_in_cons in Hin.
    destruct (write_chunk self batch c w) as [rc w1] eqn:Hc.
    pose proof (Hchunk _ _ _ _ Hc) as HP.
    apply write_chunk_spec in Hc as (_ & _ & _ & Hcase).
    assert (∃ l, client_calls w1 = client_calls w ++ l) as [l Hl].
    { destruct Hcase as [(-> & _)|(call' & _ & _ & -> & _)];
        [exists []; by rewrite app_nil_r | by eexists]. }
    destruct rc as [[]|e]; [|by apply HP].
    destruct (for_in chunks _ tt w1) as [r w'] eqn:Hrest.
    pose proof (chunks_loop _ _ _ _ _ _ Hrest) as (_ & _ & _ & calls & _ & Hcalls & _).
    cbn [snd] in *. unfold new_calls in Hin, HP, IH.
    rewrite Hcalls, Hl, <- app_assoc, drop_app_length in Hin.
    apply elem_of_app in Hin as [Hin|Hin].
    + apply HP. by rewrite Hl, drop_app_length.
    + apply (IH w1). rewrite Hrest. cbn [snd]. by rewrite Hcalls, drop_app_length.
Qed.

(** X10.  Every request that [write] makes, whether the destination accepts
    it or not, carries the sink's write precision and only points whose time
    is a number: a chunk with a record whose time is a string, bytes or
    [None] is never sent. *)
Theorem requests_carry_precision_and_numeric_times
    (self : InfluxDB3Sink) (batch : SinkBatch) (w : World) (call : ClientCall) :
  call ∈ new_calls w (write self batch w).2 →
  call_write_precision call = _write_precision self ∧
  ∀ p, p ∈ call_record call → is_Some (py_number (time p)).
Proof.
  revert w call. apply write_calls_from_chunks.
  intros c w r w' Hc call Hin.
  apply write_chunk_spec in Hc as (_ & _ & _ & Hcase).
  destruct Hcase as [(Hcalls & _)|(call' & new & w1 & Hcalls & (mn & mx & Hrecs)
                                   & Hrec & _ & _ & Hprec & _)].
  { unfold new_calls in Hin. rewrite Hcalls, drop_all in Hin.
    by apply elem_of_nil in Hin. }
  unfold new_calls in Hin. rewrite Hcalls, drop_app_length in Hin.
  apply list_elem_of_singleton in Hin as ->. split; [done|].
  unfold chunk_records in Hrecs.
  apply records_loop_times in Hrecs as (new' & Hnew & _ & Hall).
  cbn [app] in Hnew. subst new'.
  intros p Hp. rewrite Hrec in Hp.
  apply list_elem_of_fmap in Hp as (pt & -> & Hpt).
  by apply (proj1 (Forall_forall _ _) Hall).
Qed.

(** X11.  The line logged for a chunk, when no time key is configured: its
    [min_timestamp] is the least of [sys.maxsize] and the records'
    timestamps, its [max_timestamp] the greatest of [-1] and the records'
    timestamps.  So timestamps above [sys.maxsize] do not raise the minimum
    and negative ones do not lower the maximum. *)
Theorem chunk_log_min_max (self : InfluxDB3Sink) (batch : SinkBatch)
    (c : list SinkItem) (w w' : World) :
  _time_key self = None →
  write_chunk self batch c w = (Ret tt, w') →
  ∃ line lo hi,
    new_log w w' = [line] ∧ total_records line = length c ∧
    min_timestamp line = VInt lo ∧ max_timestamp line = VInt hi ∧
    lo ≤ sys_maxsize ∧ -1 ≤ hi ∧
    (∀ item, item ∈ c → lo ≤ timestamp item ≤ hi) ∧
    (lo = sys_maxsize ∨ ∃ item, item ∈ c ∧ lo = timestamp item) ∧
    (hi = -1 ∨ ∃ item, item ∈ c ∧ hi = timestamp item).
Proof.
  intros Hkey Hrun.
  apply write_chunk_ret in Hrun
    as (records & mn & mx & w1 & call & Hrecs & _ & _ & Hlog).
  unfold chunk_records in Hrecs.
  pose proof (records_loop_times _ _ _ _ _ _ _ _ _ _ _ Hrecs) as (new & Hnew & Hlen & _).
  cbn [app] in Hnew. subst new.
  apply (records_loop_min_max _ _ _ Hkey) in Hrecs
    as (lo & hi & -> & -> & Hlo & Hhi & Hall & Hmin & Hmax).
  eexists _, lo, hi. split_and!;
    [unfold new_log; by rewrite Hlog, drop_app_length | done ..].
Qed.

(** ** The whole batch *)

Lemma chunks_loop_common_tag (self : InfluxDB3Sink) (batch : SinkBatch)
    (k : string) (chunks : list (list SinkItem)) :
  (∀ v, k ∈ _tags_keys self v) →
  ∀ (w w' : World),
    for_in chunks (λ write_batch _, write_chunk self batch write_batch) tt w
      = (Ret tt, w') →
    NoDup (value <$> concat chunks) ∧
    (∀ item, item ∈ concat chunks → is_Some (heap w (value item) !! k)) ∧
    (∀ item, item ∈ concat chunks → heap w' (value item) !! k = None).
Proof.
  intros Hcommon.
  induction chunks as [|c chunks IH]; intros w w' Hrun.
  - split_and!; [constructor | |]; intros item Hin; by apply elem_of_nil in Hin.
  - rewrite for_in_cons in Hrun.
    destruct (write_chunk self batch c w) as [[[]|e] w1] eqn:Hc; [|done].
    pose proof (write_chunk_spec _ _ _ _ _ _ Hc) as (_ & Hsub & _).
    apply write_chunk_ret in Hc
      as (records & mn & mx & w0 & call & Hrecs & Hheap & _).
    unfold chunk_records in Hrecs.
    apply (records_loop_common_tag _ _ _ _ Hcommon) in Hrecs
      as (Hndc & Hhadc & Hgonec).
    rewrite <- Hheap in Hgonec.
    pose proof (chunks_loop _ _ _ _ _ _ Hrun) as (_ & Hshrink & _).
    apply IH in Hrun as (Hnd & Hhad & Hgone).
    cbn [concat]. split_and!.
    + rewrite fmap_app. apply NoDup_app. split_and!; [done | | done].
      intros l (item & -> & Hin)%list_elem_of_fmap
               (item' & Heq & Hin')%list_elem_of_fmap.
      destruct (Hhad item' Hin') as [x Hx]. rewrite <- Heq in Hx.
      rewrite (Hgonec item Hin) in Hx. done.
    + intros item [Hin|Hin]%elem_of_app; [by apply Hhadc|].
      destruct (Hhad item Hin) as [x Hx]. exists x.
      by eapply lookup_weaken; [|apply Hsub].
    + intros item [Hin|Hin]%elem_of_app; [|by apply Hgone].
      destruct (heap w' (value item) !! k) as [x|] eqn:Hx; [|done].
      eapply lookup_weaken in Hx; [|apply Hshrink].
      rewrite (Hgonec item Hin) in Hx. done.
Qed.

(** X12.  When some key is a tag key of every record, a batch is written to
    the end only if no two of the records it processes hold the same
    dictionary object: the first record pops the key, and a later record
    sharing the dictionary no longer finds it. *)
Theorem shared_dictionary_stops_write (self : InfluxDB3Sink) (batch : SinkBatch)
    (w : World) (k : string) :
  (∀ v, k ∈ _tags_keys self v) →
  (write self batch w).1 = Ret tt →
  NoDup (value <$> concat (iter_chunks batch (_batch_size self))) ∧
  (0 < _batch_size self → NoDup (value <$> items batch)).
Proof.
  intros Hcommon Hret.
  destruct (write self batch w) as [r w'] eqn:Hrun. cbn [fst] in Hret. subst r.
  unfold write in Hrun.
  apply (chunks_loop_common_tag _ _ _ _ Hcommon) in Hrun as (Hnd & _).
  split; [done|]. intros Hpos. by rewrite concat_iter_chunks in Hnd.
Qed.

(** X13.  [write] cannot be repeated on the same batch.  When some key is a
    tag key of every record, a second [write] of a batch that was written to
    the end fails with a key error on its first record: the tag keys were
    popped from the records the first time. *)
Theorem second_write_fails (self : InfluxDB3Sink) (batch : SinkBatch)
    (w : World) (k : string) :
  0 < _batch_size self →
  items batch ≠ [] →
  (∀ v, k ∈ _tags_keys self v) →
  (write self batch w).1 = Ret tt →
  ∃ k', (write self batch (write self batch w).2).1 = Raise (KeyError k').
Proof.
  intros Hpos Hne Hcommon Hret.
  destruct (write self batch w) as [r w'] eqn:Hrun. cbn [fst snd] in *. subst r.
  unfold write in *.
  pose proof (chunks_loop_common_tag _ _ _ _ Hcommon _ _ Hrun) as (_ & _ & Hgone).
  rewrite concat_iter_chunks in Hgone by done.
  unfold iter_chunks in *.
  destruct (items batch) as [|item rest] eqn:Hitems; [done|].
  cbn [length]. rewrite chunks_of_cons.
  destruct (Z.to_nat (_batch_size self)) as [|n] eqn:Hn; [lia|].
  cbn [take]. rewrite for_in_cons, write_chunk_run.
  unfold chunk_records. rewrite for_in_cons, add_record_run.
  destruct (write_record self batch item w') as [[p|e] w''] eqn:Hrec.
  - apply write_record_spec in Hrec as (_ & _ & _ & _ & Hall & _).
    destruct (Hall k (Hcommon _)) as [x Hx].
    rewrite Hgone in Hx by (by left). done.
  - apply write_record_spec in Hrec as (_ & _ & _ & k' & -> & _). by exists k'.
Qed.

Lemma chunks_loop_raise (self : InfluxDB3Sink) (batch : SinkBatch)
    (chunks : list (list SinkItem)) :
  ∀ (w : World) e w',
    for_in chunks (λ write_batch _, write_chunk self batch write_batch) tt w
      = (Raise e, w') →
    let n := length (new_log w w') in
    (n < length chunks)%nat ∧
    Forall2 (chunk_sent self batch) (take n chunks) (take n (new_calls w w')) ∧
    (length (new_calls w w') ≤ S n)%nat ∧
    ∀ call, new_calls w w' !! n = Some call → call_outcome call ≠ WriteOk.
Proof.
  induction chunks as [|c chunks IH]; intros w e w' Hrun; [done|].
  rewrite for_in_cons in Hrun.
  destruct (write_chunk self batch c w) as [rc w1] eqn:Hc.
  apply write_chunk_spec in Hc as (_ & _ & _ & Hcase).
  destruct Hcase as [(Hcalls & Hlog & e' & -> & _)
                    |(call & new & w0 & Hcalls & _ & _ & _ & Hsent & Hprec & Hout)].
  { injection Hrun as <- <-. unfold new_log, new_calls.
    rewrite Hcalls, Hlog, !drop_all. cbn. split_and!; [lia | constructor | lia | done]. }
  destruct (call_outcome call) as [|exc|name] eqn:Eout.
  - destruct Hout as (-> & _ & line & Hlog & _).
    pose proof (chunks_loop _ _ _ _ _ _ Hrun)
      as (_ & _ & _ & calls & lines & Hcalls' & Hlog' & _).
    apply IH in Hrun. cbv zeta in Hrun. unfold new_log, new_calls in *.
    rewrite Hcalls', Hlog', !drop_app_length in Hrun.
    rewrite Hcalls', Hlog', Hcalls, Hlog, <- !app_assoc, !drop_app_length.
    cbn [app length take]. destruct Hrun as (Hn & Hall & Hlen & Hlast).
    split_and!; [lia | by constructor | lia | done].
  - destruct Hout as [Hlog Hr]. rewrite Hr, on_InfluxDBError_run in Hrun.
    cbn [fst] in Hrun.
    assert (w' = w1) as ->.
    { destruct (write_limit_exceeded exc); [|by injection Hrun].
      destruct (py_int (retry_after exc)); by injection Hrun. }
    unfold new_log, new_calls. rewrite Hcalls, Hlog, drop_all, drop_app_length.
    cbn. split_and!; [lia | constructor | lia |].
    intros call' [= <-]. by rewrite Eout.
  - destruct Hout as [Hlog ->]. injection Hrun as <- <-.
    unfold new_log, new_calls. rewrite Hcalls, Hlog, drop_all, drop_app_length.
    cbn. split_and!; [lia | constructor | lia |].
    intros call' [= <-]. by rewrite Eout.
Qed.

Lemma chunks_loop_raise_frame (self : InfluxDB3Sink) (batch : SinkBatch)
    (chunks : list (list SinkItem)) :
  ∀ (w : World) e w',
    for_in chunks (λ write_batch _, write_chunk self batch write_batch) tt w
      = (Raise e, w') →
    ∀ l, l ∉ value <$> concat (take (S (length (new_log w w'))) chunks) →
         heap w' l = heap w l.
Proof.
  induction chunks as [|c chunks IH]; intros w e w' Hrun l Hl; [done|].
  rewrite for_in_cons in Hrun. cbn [take concat] in Hl.
  rewrite fmap_app, elem_of_app in Hl.
  destruct (write_chunk self batch c w) as [rc w1] eqn:Hc.
  apply write_chunk_spec in Hc as (_ & _ & Hfr & Hcase).
  assert (heap w1 l = heap w l) as Hl1 by (apply Hfr; tauto).
  destruct rc as [[]|e']; [|by injection Hrun as <- <-].
  destruct Hcase as [(_ & _ & ? & [=] & _)
                    |(call & new & w0 & _ & _ & _ & _ & _ & _ & Hout)].
  destruct (call_outcome call) as [|exc|name]; cycle 1.
  { destruct Hout as [_ Hr]. rewrite on_InfluxDBError_run in Hr. cbn [fst] in Hr.
    destruct (write_limit_exceeded exc); [|done].
    by destruct (py_int (retry_after exc)). }
  { by destruct Hout as [_ [=]]. }
  destruct Hout as (_ & _ & line & Hlog & _).
  pose proof (chunks_loop _ _ _ _ _ _ Hrun) as (_ & _ & _ & _ & lines & _ & Hlog' & _).
  rewrite <- Hl1. apply (IH _ _ _ Hrun). intros Hin. apply Hl. right.
  unfold new_log in *. rewrite Hlog', drop_app_length in Hin.
  rewrite Hlog', Hlog, <- app_assoc, drop_app_length. done.
Qed.

(** X14.  [write] stops at the first failure.  When it raises with [n] lines
    logged, the first [n] requests are the accepted requests of the first [n]
    chunks, in order; at most one more request was made, and that one was
    refused; the chunks after chunk [n] were not attempted, and the
    dictionaries of their records are as they were. *)
Theorem write_stops_at_first_failure (self : InfluxDB3Sink) (batch : SinkBatch)
    (w : World) e :
  (write self batch w).1 = Raise e →
  let w' := (write self batch w).2 in
  let chunks := iter_chunks batch (_batch_size self) in
  let n := length (new_log w w') in
  (n < length chunks)%nat ∧
  Forall2 (chunk_sent self batch) (take n chunks) (take n (new_calls w w')) ∧
  (length (new_calls w w') ≤ S n)%nat ∧
  (∀ call, new_calls w w' !! n = Some call → call_outcome call ≠ WriteOk) ∧
  (∀ l, l ∉ value <$> concat (take (S n) chunks) → heap w' l = heap w l).
Proof.
  intros Hraise.
  destruct (write self batch w) as [r w'] eqn:Hrun. cbn [fst snd] in *. subst r.
  unfold write in Hrun.
  pose proof (chunks_loop_raise _ _ _ _ _ _ Hrun) as (? & ? & ? & ?).
  pose proof (chunks_loop_raise_frame _ _ _ _ _ _ Hrun).
  done.
Qed.

Lemma write_chunk_raise (self : InfluxDB3Sink) (batch : SinkBatch)
    (c : list SinkItem) (w : World) e w' :
  write_chunk self batch c w = (Raise e, w') →
  (∃ k, e = KeyError k) ∨ (∃ s, e = TypeError s) ∨
  (_client self = None ∧ ∃ s, e = AttributeError s) ∨
  (∃ s, e = ValueError (InvalidLiteralForInt s)) ∨
  (∃ exc, e = EInfluxDBError exc) ∨
  (∃ retry exc,
     e = SinkBackpressureError retry (topic batch) (partition batch) exc) ∨
  (∃ name, e = EOther name).
Proof.
  rewrite write_chunk_run.
  destruct (chunk_records self batch c w) as [[[[records mn] mx]|e'] w1] eqn:Hrecs.
  - cbv zeta. destruct (_client self) as [client|].
    + destruct (write_outcome client _ _ _) as [|exc|name]; [done| |].
      * rewrite on_InfluxDBError_run.
        destruct (write_limit_exceeded exc).
        -- destruct (py_int (retry_after exc)) as [retry|e'] eqn:Hint.
           ++ intros [= <- <-]. do 5 right. left. by eexists _, _.
           ++ intros [= <- <-]. apply py_int_raise in Hint as [[s ->]|[s ->]].
              ** right. left. by eexists.
              ** do 3 right. left. by eexists.
        -- intros [= <- <-]. do 4 right. left. by eexists.
      * intros [= <- <-]. do 6 right. by eexists.
    + intros [= <- <-]. right. right. left. split; [done | by eexists].
  - intros [= <- <-]. unfold chunk_records in Hrecs.
    apply records_loop in Hrecs as (_ & _ & _ & [[k ->]|[s ->]]).
    + left. by eexists.
    + right. left. by eexists.
Qed.


(** X16.  Construction does not connect.  A sink as the constructor returns
    it has no client, and [write] on a sink without client never reaches the
    destination: it makes no request and logs nothing, and it returns
    normally only when the batch has no chunk at all. *)
Theorem write_without_setup (a : Init.args) (sink : InfluxDB3Sink)
    (batch : SinkBatch) (w : World) :
  __init__ a = Ret sink →
  _client sink = None ∧
  client_calls (write sink batch w).2 = client_calls w ∧
  log (write sink batch w).2 = log w ∧
  ((write sink batch w).1 = Ret tt → iter_chunks batch (_batch_size sink) = []).
Proof.
  intros Hinit.
  assert (_client sink = None) as Hnone.
  { rewrite init_cases in Hinit.
    destruct (bool_decide _); [|done].
    destruct (fields_tags_keys_overlap a) as [overlap|];
      [destruct (bool_decide _); [|done]|];
      destruct (_TIME_PRECISIONS _); try done; by injection Hinit as <-. }
  split; [done|].
  assert (new_calls w (write sink batch w).2 = []) as Hcalls.
  { apply elem_of_nil_inv. intros call Hin. revert w call Hin.
    apply (write_calls_from_chunks sink batch (λ _, False)).
    intros c w r w' Hc call Hin. rewrite write_chunk_run in Hc.
    destruct (chunk_records sink batch c w) as [[[[records mn] mx]|e] w1] eqn:Hrecs.
    - unfold chunk_records in Hrecs.
      apply records_loop in Hrecs as ((_ & _ & Hsame & _) & _).
      cbv zeta in Hc. rewrite Hnone in Hc. injection Hc as <- <-.
      unfold new_calls in Hin. cbn in Hin. rewrite Hsame, drop_all in Hin.
      by apply elem_of_nil in Hin.
    - injection Hc as <- <-. unfold chunk_records in Hrecs.
      apply records_loop in Hrecs as ((_ & _ & Hsame & _) & _).
      unfold new_calls in Hin. rewrite Hsame, drop_all in Hin.
      by apply elem_of_nil in Hin. }
  pose proof (write_spec sink batch w) as (_ & _ & _ & Hc & Hl & Hr).
  cbv zeta in Hc, Hl, Hr. rewrite Hcalls in Hc, Hr. rewrite app_nil_r in Hc.
  split; [done|].
  destruct (write sink batch w) as [r w'] eqn:Hrun. cbn [fst snd] in *.
  destruct r as [[]|e].
  - destruct Hr as (Hall & _ & Hlen & _).
    apply Forall2_nil_inv_r in Hall. rewrite Hall in Hlen |- *.
    destruct (new_log w w'); [|done]. by rewrite app_nil_r in Hl.
  - unfold write in Hrun. apply chunks_loop_raise in Hrun.
    cbv zeta in Hrun. destruct Hrun as (Hn & Hall & _).
    rewrite Hcalls, take_nil in Hall. apply Forall2_nil_inv_r in Hall.
    destruct (new_log w w') as [|line lines]; [by rewrite app_nil_r in Hl|].
    cbn [length] in *.
    destruct (iter_chunks batch (_batch_size sink)); [cbn in Hn; lia | done].
Qed.

(** X17.  The field names of a point, when field keys are given: exactly the
    selected keys that are not tag keys and that the record has.  With
    [allow_missing_fields=False] the record has them all, so the names are
    the selection without the tag keys. *)
Theorem field_names (self : InfluxDB3Sink) (batch : SinkBatch)
    (item : SinkItem) (w : World) p w' :
  write_record self batch item w = (Ret p, w') →
  let v0 := heap w (value item) in
  let selected : gset string :=
    list_to_set (_fields_keys self v0) ∖ list_to_set (_tags_keys self v0) in
  _fields_keys self v0 ≠ [] →
  dom (fields (snapshot (heap w') p)) = selected ∩ dom v0 ∧
  (_allow_missing_fields self = false →
   dom (fields (snapshot (heap w') p)) = selected).
Proof.
  intros Hrun v0 selected Hne.
  pose proof (write_record_point _ _ _ _ _ _ Hrun) as Hpt.
  apply write_record_spec in Hrun as (_ & _ & _ & _ & _ & _ & _ & _ & _ & Hstrict & _).
  fold v0 in Hpt, Hstrict. rewrite Hpt. unfold output_point. cbn [fields].
  fold v0. rewrite decide_False by done.
  assert (∀ k, k ∈ dom (restrict (λ k, k ∈ _fields_keys self v0
                                       ∧ k ∉ _tags_keys self v0) v0)
               ↔ k ∈ selected ∧ k ∈ dom v0) as Hdom.
  { intros k. subst selected.
    rewrite !elem_of_dom, lookup_restrict_dict, elem_of_difference,
      !elem_of_list_to_set.
    destruct (decide _) as [[? ?]|Hn]; [tauto|].
    split; [by intros [? ?] | tauto]. }
  split.
  - apply set_eq. intros k. rewrite Hdom, elem_of_intersection. tauto.
  - intros Hs. apply set_eq. intros k. rewrite Hdom. split; [tauto|].
    intros Hk. split; [done|]. subst selected.
    apply elem_of_difference in Hk as [Hf Ht].
    apply elem_of_list_to_set in Hf. rewrite elem_of_list_to_set in Ht.
    apply elem_of_dom. by apply Hstrict.
Qed.

(** ** Setup *)

(** X18.  The probe of [setup].  When the empty query raises an error with
    text [text], [setup] succeeds if the text contains
    ["No SQL statements were provided in the query string"] and re-raises the
    error otherwise.  Either way the client has been stored, built from the
    arguments kept at construction. *)
Theorem setup_probe (InfluxDBClient3 : ClientArgs → Client)
    (self : InfluxDB3Sink) (text : string) :
  let client := InfluxDBClient3 (_client_args self) in
  let marker := "No SQL statements were provided in the query string" in
  query_outcome client "" = Some (EOther text) →
  _client (setup InfluxDBClient3 self).2 = Some client ∧
  ((∃ m, substring m (String.length marker) text = marker) →
   (setup InfluxDBClient3 self).1 = Ret tt) ∧
  ((∀ m, substring m (String.length marker) text ≠ marker) →
   (setup InfluxDBClient3 self).1 = Raise (EOther text)).
Proof.
  intros client marker Hquery. unfold setup. fold client. rewrite Hquery.
  cbn [exn_str]. fold marker.
  destruct (index 0 marker text) as [m|] eqn:Hindex.
  - split_and!; [done | done |].
    intros Hnot. apply index_correct1 in Hindex. by destruct (Hnot m).
  - split_and!; [done | | done].
    intros [m Hm]. exfalso.
    apply (index_correct3 0 m marker text); [done | done | lia | done].
Qed.

(** X19.  Once [setup] has run, whatever its outcome, [write] uses the stored
    client: it never fails for want of one, and the mapping and the chunk
    size it works with are those of the sink before [setup]. *)
Theorem write_after_setup (InfluxDBClient3 : ClientArgs → Client)
    (self : InfluxDB3Sink) (batch : SinkBatch) (w : World) :
  let ready := (setup InfluxDBClient3 self).2 in
  (∀ s, (write ready batch w).1 ≠ Raise (AttributeError s)) ∧
  iter_chunks batch (_batch_size ready) = iter_chunks batch (_batch_size self) ∧
  ∀ item w0, write_record ready batch item w0 = write_record self batch item w0.
Proof.
  intros ready.
  assert (_client ready = Some (InfluxDBClient3 (_client_args self))) as Hclient.
  { subst ready. unfold setup. by destruct (query_outcome _ _) as [e|];
      [destruct (index _ _ _)|]. }
  assert (_batch_size ready = _batch_size self ∧
          _measurement ready = _measurement self ∧
          _tags_keys ready = _tags_keys self ∧
          _fields_keys ready = _fields_keys self ∧
          _include_metadata_tags ready = _include_metadata_tags self ∧
          _allow_missing_fields ready = _allow_missing_fields self ∧
          _time_key ready = _time_key self) as (Hb & Hm & Ht & Hf & Hi & Ha & Hk).
  { subst ready. unfold setup. by destruct (query_outcome _ _) as [e|];
      [destruct (index _ _ _)|]. }
  split_and!.
  - intros s Hraise.
    destruct (write ready batch w) as [r w'] eqn:Hrun. cbn [fst] in Hraise. subst r.
    unfold write in Hrun. apply for_in_raise in Hrun as (c & [] & w0 & _ & Hc).
    apply write_chunk_raise in Hc
      as [[? [=]]|[[? [=]]|[[Hnone _]|[[? [=]]|[[? [=]]|[(? & ? & [=])|[? [=]]]]]]]].
    congruence.
  - by rewrite Hb.
  - intros item w0. unfold write_record. by rewrite Hm, Ht, Hf, Hi, Ha, Hk.
Qed.

(** ** Backpressure *)

(** X20.  A 429 whose [retry_after] is set but is not something [int]
    accepts (an HTTP date, say) comes out of [write] as the conversion error:
    neither as a backpressure signal nor as the destination's error. *)
Theorem unreadable_retry_after (self : InfluxDB3Sink) (batch : SinkBatch)
    (w : World) (call : ClientCall) (exc : InfluxDBError) (resp : Response) e :
  call ∈ new_calls w (write self batch w).2 →
  call_outcome call = WriteInfluxDBError exc →
  response exc = Some resp → status resp = 429 →
  py_truthy (retry_after exc) = true →
  py_int (retry_after exc) = Raise e →
  (write self batch w).1 = Raise e ∧
  ((∃ s, e = TypeError s) ∨ (∃ s, e = ValueError (InvalidLiteralForInt s))).
Proof.
  intros Hin Hout Hresp Hstatus Htruthy Hint.
  split; [|by apply py_int_raise in Hint].
  assert (write_limit_exceeded exc = true) as Hlimit.
  { apply write_limit_exceeded_spec. by exists resp. }
  pose proof (write_spec self batch w) as (_ & _ & _ & _ & _ & Hr).
  cbv zeta in Hr.
  destruct (write self batch w) as [r w'] eqn:Hrun. cbn [fst snd] in *.
  destruct r as [[]|e'].
  - destruct Hr as (Hall & _).
    pose proof (chunk_sent_ok _ _ _ _ _ Hall Hin). congruence.
  - destruct Hr as (sent & Hall & [[Heq _]|(call' & Heq & Hfail)]).
    + rewrite Heq in Hin. pose proof (chunk_sent_ok _ _ _ _ _ Hall Hin). congruence.
    + rewrite Heq in Hin. apply elem_of_app in Hin as [Hin|Hin].
      * pose proof (chunk_sent_ok _ _ _ _ _ Hall Hin). congruence.
      * apply list_elem_of_singleton in Hin as ->.
        rewrite Hout, on_InfluxDBError_run, Hlimit, Hint in Hfail.
        cbn [fst] in Hfail. congruence.
Qed.

(** X22.  When a request made by [write] fails with an [InfluxDBError] whose
    response has status 429 and whose [retry_after] is set (truthy) and is
    something [int] accepts, [write] raises [SinkBackpressureError] with
    [retry_after] the integer [int] gives and with the batch's topic and
    partition.  An [InfluxDBError] without a response, with another status or
    with no [retry_after], and any other exception of the client, leaves
    [write] unchanged.  A [SinkBackpressureError] is raised in no other
    situation. *)
Theorem write_backpressure_translation
    (self : InfluxDB3Sink) (batch : SinkBatch) (w : World) :
  let r := (write self batch w).1 in
  let w' := (write self batch w).2 in
  (∀ call exc,
     call ∈ new_calls w w' → call_outcome call = WriteInfluxDBError exc →
     (∀ resp retry,
        response exc = Some resp → status resp = 429 →
        py_truthy (retry_after exc) = true →
        py_int (retry_after exc) = Ret retry →
        r = Raise (SinkBackpressureError retry (topic batch) (partition batch) exc)) ∧
     (¬ (∃ resp, response exc = Some resp ∧ status resp = 429 ∧
                 py_truthy (retry_after exc) = true) →
      r = Raise (EInfluxDBError exc))) ∧
  (∀ call name,
     call ∈ new_calls w w' → call_outcome call = WriteOtherError name →
     r = Raise (EOther name)) ∧
  (∀ retry t p cause,
     r = Raise (SinkBackpressureError retry t p cause) →
     t = topic batch ∧ p = partition batch ∧
     py_int (retry_after cause) = Ret retry ∧
     (∃ resp, response cause = Some resp ∧ status resp = 429 ∧
              py_truthy (retry_after cause) = true) ∧
     ∃ call, call ∈ new_calls w w' ∧ call_outcome call = WriteInfluxDBError cause).
Proof.
  intros r w'. subst r w'.
  pose proof (write_spec self batch w) as (_ & _ & _ & _ & _ & Hr).
  cbv zeta in Hr.
  destruct (write self batch w) as [r w'] eqn:Hrun. cbn [fst snd] in *.
  assert (∀ call, call ∈ new_calls w w' → call_outcome call ≠ WriteOk →
          ∃ e, r = Raise e ∧
               match call_outcome call with
               | WriteOk => False
               | WriteInfluxDBError exc =>
                   Raise e = (on_InfluxDBError batch exc w').1
               | WriteOtherError name => e = EOther name
               end) as Hfailed.
  { intros call Hin Hbad. destruct r as [[]|e].
    - destruct Hr as (Hall & _). destruct Hbad. by eapply chunk_sent_ok.
    - exists e. split; [done|].
      destruct Hr as (sent & Hall & [[Heq _]|(call' & Heq & Hout)]).
      + rewrite Heq in Hin. destruct Hbad. by eapply chunk_sent_ok.
      + rewrite Heq in Hin. apply elem_of_app in Hin as [Hin|Hin].
        * destruct Hbad. by eapply chunk_sent_ok.
        * apply list_elem_of_singleton in Hin as ->. done. }
  split_and!.
  - intros call exc Hin Hout.
    destruct (Hfailed call Hin) as (e & -> & He); [by rewrite Hout|].
    rewrite Hout, on_InfluxDBError_run in He. cbn [fst] in He. split.
    + intros resp retry Hresp Hstatus Htruthy Hint.
      assert (write_limit_exceeded exc = true) as Hlimit.
      { apply write_limit_exceeded_spec. by exists resp. }
      by rewrite Hlimit, Hint in He.
    + intros Hnot. destruct (write_limit_exceeded exc) eqn:Hlimit; [|done].
      destruct Hnot. by apply write_limit_exceeded_spec.
  - intros call name Hin Hout.
    destruct (Hfailed call Hin) as (e & -> & He); [by rewrite Hout|].
    rewrite Hout in He. by subst e.
  - intros retry t p cause ->.
    destruct Hr as (sent & Hall & [[_ Hloc]|(call & Heq & Hout)]).
    { by destruct Hloc as [[? [=]]|[[? [=]]|[? [=]]]]. }
    destruct (call_outcome call) as [|exc|name] eqn:Ecall; [done| |done].
    rewrite on_InfluxDBError_run in Hout. cbn [fst] in Hout.
    destruct (write_limit_exceeded exc) eqn:Hlimit; [|done].
    destruct (py_int (retry_after exc)) as [retry'|e'] eqn:Hint.
    + injection Hout as -> -> -> ->. split_and!; try done.
      * by apply write_limit_exceeded_spec.
      * exists call. split; [|done]. rewrite Heq, elem_of_app. right.
        by apply list_elem_of_singleton.
    + apply py_int_raise in Hint as [[s ->]|[s ->]]; done.
Qed.

(** ** The further properties on sample runs *)

Import Sample Scenario Coverage.

(** Static keys sharing ["host"]. *)
Lemma init_error_witness :
  ∃ fk tk, ∃ k, k ∈ fk ∧ k ∈ tk ∧
    __init__ (args (Static ["host"; "usage"]) (Static ["host"]) "ms")
      = Raise (ValueError (KeysOverlap (list_to_set fk ∩ list_to_set tk))).
Proof.
  destruct (__init__ (args (Static ["host"; "usage"]) (Static ["host"]) "ms"))
    as [sink|e] eqn:Hinit; [vm_compute in Hinit; discriminate Hinit|].
  destruct (init_error _ _ Hinit) as [[Hbad _]|(_ & fk & tk & _ & _ & -> & k & Hf & Ht)].
  - exfalso. apply Hbad. simpl. left.
  - by exists fk, tk, k.
Defined.

(** ["host"] is popped, then ["zone"] is missing. *)
Lemma failed_pop_keeps_earlier_pops_witness :
  (write_record two_tags (batch 1) (item 0) world).1 = Raise (KeyError "zone") ∧
  heap (write_record two_tags (batch 1) (item 0) world).2 0%nat
    = remove_keys ["host"] record_value.
Proof.
  destruct (failed_pop_keeps_earlier_pops two_tags (batch 1) (item 0) world
              ["host"] [] "zone") as (Hr & Hh & _).
  - reflexivity.
  - apply (bool_decide_unpack _). vm_compute. exact I.
  - intros k Hk. apply list_elem_of_singleton in Hk. subst k. by eexists.
  - left. reflexivity.
  - done.
Defined.

(** The time is the entry ["usage"], which stays in the value. *)
Lemma record_time_witness :
  let '(r, w') := write_record timed (batch 1) (item 0) world in
  match r with
  | Ret p => heap world 0%nat !! "usage" = Some (time p) ∧
             heap w' 0%nat !! "usage" = Some (time p)
  | Raise _ => False
  end.
Proof.
  destruct (write_record timed (batch 1) (item 0) world) as [[p|e] w'] eqn:Hrun.
  - apply (record_time timed (batch 1) (item 0) world p w' Hrun).
  - vm_compute in Hrun. discriminate Hrun.
Defined.

(** The user's tag [__key] and the three metadata tags. *)
Lemma tag_names_witness :
  let '(r, w') := write_record reserved (batch 1) (item 0) world in
  match r with
  | Ret p => dom (tags p) =
               list_to_set ["__key"] ∪ {[ "__key"; "__topic"; "__partition" ]}
  | Raise _ => False
  end.
Proof.
  destruct (write_record reserved (batch 1) (item 0) world) as [[p|e] w'] eqn:Hrun.
  - apply (tag_names reserved (batch 1) (item 0) world p w' Hrun).
  - vm_compute in Hrun. discriminate Hrun.
Defined.

(** The tag ["host"] and the fields make up the record. *)
Lemma tags_and_fields_partition_value_witness :
  let '(r, w') := write_record tagged (batch 1) (item 0) world in
  match r with
  | Ret p => restrict (.∈ ["host"]) record_value ∪ fields (snapshot (heap w') p)
               = record_value
  | Raise _ => False
  end.
Proof.
  destruct (write_record tagged (batch 1) (item 0) world) as [[p|e] w'] eqn:Hrun.
  - apply (tags_and_fields_partition_value tagged (batch 1) (item 0) world p w' Hrun).
    reflexivity.
  - vm_compute in Hrun. discriminate Hrun.
Defined.

Lemma point_entries_come_from_value_witness :
  let '(r, w') := write_record overlapping (batch 1) (item 0) world in
  match r with
  | Ret p => fields (snapshot (heap w') p) ⊆ record_value
  | Raise _ => False
  end.
Proof.
  destruct (write_record overlapping (batch 1) (item 0) world)
    as [[p|e] w'] eqn:Hrun.
  - apply (point_entries_come_from_value overlapping (batch 1) (item 0) world p w' Hrun).
  - vm_compute in Hrun. discriminate Hrun.
Defined.

(** The record's entry [__key] is a field; the tag [__key] is the record's key. *)
Lemma reserved_name_tag_and_field_witness :
  let '(r, w') := write_record with_metadata (batch 1) (item 0) world in
  match r with
  | Ret p => tags p !! "__key" = Some (VBytes "k") ∧
             fields (snapshot (heap w') p) !! "__key" = Some (VStr "mine")
  | Raise _ => False
  end.
Proof.
  destruct (write_record with_metadata (batch 1) (item 0) world)
    as [[p|e] w'] eqn:Hrun.
  - apply (reserved_name_tag_and_field with_metadata (batch 1) (item 0) world
             p w' (VStr "mine") Hrun).
    + reflexivity.
    + reflexivity.
    + apply (bool_decide_unpack _). vm_compute. exact I.
    + reflexivity.
  - vm_compute in Hrun. discriminate Hrun.
Defined.

(** The selection is ["host"], ["usage"]; ["host"] is a tag. *)
Lemma field_names_witness :
  let '(r, w') := write_record selecting (batch 1) (item 0) world in
  match r with
  | Ret p => dom (fields (snapshot (heap w') p))
               = list_to_set ["host"; "usage"] ∖ list_to_set ["host"]
  | Raise _ => False
  end.
Proof.
  destruct (write_record selecting (batch 1) (item 0) world)
    as [[p|e] w'] eqn:Hrun.
  - apply (field_names selecting (batch 1) (item 0) world p w' Hrun).
    + discriminate.
    + reflexivity.
  - vm_compute in Hrun. discriminate Hrun.
Defined.

(** The refused request of a throttling destination. *)
Lemma requests_carry_precision_and_numeric_times_witness :
  ∃ call, new_calls world (write (plain throttling) (batch 2) world).2 !! 0%nat
            = Some call ∧
          call_write_precision call = MS ∧
          ∀ p, p ∈ call_record call → is_Some (py_number (time p)).
Proof.
  eexists. split; [reflexivity|].
  apply (requests_carry_precision_and_numeric_times
           (plain throttling) (batch 2) world).
  eapply list_elem_of_lookup_2 with (i := 0%nat). reflexivity.
Defined.

(** Two records with consecutive timestamps. *)
Lemma chunk_log_min_max_witness :
  ∃ line lo hi,
    new_log world (write_chunk (plain accepting) (batch 2) (items (batch 2)) world).2
      = [line] ∧
    total_records line = 2%nat ∧
    min_timestamp line = VInt lo ∧ max_timestamp line = VInt hi ∧
    lo ≤ sys_maxsize ∧ -1 ≤ hi ∧
    (∀ it, it ∈ items (batch 2) → lo ≤ timestamp it ≤ hi) ∧
    (lo = sys_maxsize ∨ ∃ it, it ∈ items (batch 2) ∧ lo = timestamp it) ∧
    (hi = -1 ∨ ∃ it, it ∈ items (batch 2) ∧ hi = timestamp it).
Proof.
  apply (chunk_log_min_max (plain accepting) (batch 2) (items (batch 2)) world).
  - reflexivity.
  - apply injective_projections; [vm_compute; reflexivity | reflexivity].
Defined.

(** Distinct objects: the batch is written to the end. *)
Lemma shared_dictionary_stops_write_witness :
  NoDup (value <$> items (batch 2)).
Proof.
  apply (shared_dictionary_stops_write tagged (batch 2) world "host").
  - intros v. simpl. left.
  - vm_compute. reflexivity.
  - reflexivity.
Defined.

Lemma second_write_fails_witness :
  ∃ k', (write tagged (batch 2) (write tagged (batch 2) world).2).1
          = Raise (KeyError k').
Proof.
  apply (second_write_fails tagged (batch 2) world "host").
  - reflexivity.
  - discriminate.
  - intros v. simpl. left.
  - vm_compute. reflexivity.
Defined.

(** The first request is refused: nothing is logged, one request was made. *)
Lemma write_stops_at_first_failure_witness :
  length (new_log world (write (plain failing) (batch 2) world).2) = 0%nat ∧
  (length (new_calls world (write (plain failing) (batch 2) world).2) ≤ 1)%nat.
Proof.
  destruct (write_stops_at_first_failure (plain failing) (batch 2) world
              (EInfluxDBError internal_error)) as (_ & _ & Hcalls & _).
  - vm_compute. reflexivity.
  - assert (length (new_log world (write (plain failing) (batch 2) world).2)
            = 0%nat) as Hlog by (vm_compute; reflexivity).
    rewrite Hlog in Hcalls. done.
Defined.


(** A sink straight from the constructor. *)
Lemma write_without_setup_witness :
  ∃ sink, __init__ (args (Static ["usage"]) (Static ["host"]) "ms") = Ret sink ∧
          _client sink = None ∧
          client_calls (write sink (batch 2) world).2 = [].
Proof.
  eexists. split; [reflexivity|].
  destruct (write_without_setup (args (Static ["usage"]) (Static ["host"]) "ms")
              _ (batch 2) world eq_refl) as (Hnone & Hcalls & _).
  split; [exact Hnone | exact Hcalls].
Defined.

(** The expected refusal of the empty query, and a rejected credential. *)
Lemma setup_probe_witness :
  (setup (λ _, empty_query_refused) (plain accepting)).1 = Ret tt ∧
  (setup (λ _, unauthorized) (plain accepting)).1
    = Raise (EOther "unauthorized access").
Proof.
  split.
  - apply (setup_probe (λ _, empty_query_refused) (plain accepting)
             "Error: No SQL statements were provided in the query string").
    + reflexivity.
    + exists 7%nat. reflexivity.
  - apply (setup_probe (λ _, unauthorized) (plain accepting) "unauthorized access").
    + reflexivity.
    + intros m Hm.
      assert (index 0 "No SQL statements were provided in the query string"
                "unauthorized access" = None) as Hindex by reflexivity.
      by apply (index_correct3 0 m _ _ Hindex); [| lia |].
Defined.

(** [Retry-After] holds a date. *)
Lemma unreadable_retry_after_witness :
  (write (plain throttling_until_date) (batch 1) world).1
    = Raise (ValueError (InvalidLiteralForInt "Wed, 21 Oct 2015 07:28:00 GMT")).
Proof.
  assert (∃ call, new_calls world
                    (write (plain throttling_until_date) (batch 1) world).2
                    !! 0%nat = Some call ∧
                  call_outcome call = WriteInfluxDBError retry_at_date)
    as (call & Hcall & Hout).
  { eexists. split; reflexivity. }
  apply list_elem_of_lookup_2 in Hcall.
  apply (unreadable_retry_after (plain throttling_until_date) (batch 1) world
           call retry_at_date {| status := 429 |} _ Hcall Hout);
    reflexivity.
Defined.

Lemma init_write_precision_witness :
  ∃ sink, __init__ (args (Static ["usage"]) (Static ["host"]) "us") = Ret sink ∧
          _write_precision sink = US.
Proof.
  eexists. split; [reflexivity|].
  destruct (init_write_precision
              (args (Static ["usage"]) (Static ["host"]) "us") _ eq_refl)
    as [[E _]|[[E _]|[[_ H]|[E _]]]]; try discriminate E.
  exact H.
Defined.

(** HTTP 429 with [Retry-After: 30] on topic ["t"], partition 2. *)
Lemma write_backpressure_translation_witness :
  (write (plain throttling) (batch 1) world).1
    = Raise (SinkBackpressureError 30 "t" 2 too_many_requests).
Proof.
  pose proof (write_backpressure_translation (plain throttling) (batch 1) world)
    as [H _].
  cbv zeta in H.
  assert (∃ call, new_calls world (write (plain throttling) (batch 1) world).2
                    !! 0%nat = Some call ∧
                  call_outcome call = WriteInfluxDBError too_many_requests)
    as (call & Hcall & Hout).
  { eexists. split; reflexivity. }
  apply list_elem_of_lookup_2 in Hcall.
  destruct (H call too_many_requests Hcall Hout) as [Hraise _].
  apply (Hraise {| status := 429 |} 30); reflexivity.
Defined.
